(** * claude-code-server: task orchestration subsystem

    A shallow embedding of the task store, the session store, the webhook
    notifier and the task queue of the server, followed by the properties
    of the specification that were checked against it.

    Conventions of the embedding.
    - A JavaScript array held in a store document ([db.data.tasks],
      [db.data.sessions]) is a [list], in storage order.
    - An ISO-8601 timestamp is the integer [new Date(s).getTime()]
      (milliseconds since the epoch), a [Z].  Every store operation takes the
      reading of the clock it runs at as an argument [now].
    - A monetary amount is an exact rational ([Qc]); JavaScript computes on
      doubles, whose rounding is not modelled.
    - [null] and [undefined] are [None].
    - A patch object passed to [update] is the list of its [key: value]
      pairs, merged from left to right as the object spread does. *)

From Stdlib Require Import ZArith QArith Qcanon Lia.
From stdpp Require Import base option list strings pretty gmap numbers sorting.

Local Open Scope Z_scope.

(** ** Values shared by the stores *)

Definition Timestamp := Z.

(** [task.metadata]: the keys the HTTP layer writes and the queue reads. *)
Record Metadata := {
  webhook_url : option string;
  meta_session_id : option string;
  system_prompt : option string;
  max_budget_usd : option Qc;
  allowed_tools : option (list string);
  disallowed_tools : option (list string);
  agent : option string;
  mcp_config : option string;
}.

(** The empty object [{}]. *)
Definition empty_metadata : Metadata :=
  {| webhook_url := None; meta_session_id := None; system_prompt := None;
     max_budget_usd := None; allowed_tools := None; disallowed_tools := None;
     agent := None; mcp_config := None |}.

(** [Array.prototype.sort(cmp)]: the sort is stable since ES2019, so for a
    comparator that is a weak order the result is the one of a stable
    insertion sort: [x] goes before the first element it does not exceed. *)
Fixpoint sort_insert {A} (cmp : A → A → Z) (x : A) (l : list A) : list A :=
  match l with
  | [] => [x]
  | y :: l' => if bool_decide (cmp x y ≤ 0) then x :: y :: l'
               else y :: sort_insert cmp x l'
  end.

Definition array_sort {A} (cmp : A → A → Z) (l : list A) : list A :=
  foldr (sort_insert cmp) [] l.

(** [arr.slice(0, n)]: a negative [n] counts from the end. *)
Definition slice0 {A} (n : Z) (l : list A) : list A :=
  if bool_decide (n < 0) then take (Z.to_nat (Z.of_nat (length l) + n)) l
  else take (Z.to_nat n) l.

(** ** TaskStore (storage/taskStore.js) *)

Module TaskStore.

Inductive TaskStatus := pending | processing | completed | failed | cancelled.

#[export] Instance TaskStatus_eq_dec : EqDecision TaskStatus.
Proof. solve_decision. Defined.

Record Task := {
  id : string;
  created_at : Timestamp;
  updated_at : Timestamp;
  status : TaskStatus;
  prompt : string;
  project_path : option string;
  model : string;
  priority : Z;
  result : option string;
  error : option string;
  started_at : option Timestamp;
  completed_at : option Timestamp;
  duration_ms : option Z;
  cost_usd : Qc;
  session_id : option string;
  metadata : Metadata;
}.

(** The argument of [create]: what a caller may supply. *)
Record TaskData := {
  td_prompt : string;
  td_project_path : option string;
  td_model : option string;
  td_priority : option Z;
  td_session_id : option string;
  td_metadata : option Metadata;
}.

(** One [key: value] pair of a patch object. *)
Inductive FieldUpdate :=
| set_status (s : TaskStatus)
| set_priority (p : Z)
| set_created_at (t : Timestamp)
| set_started_at (t : option Timestamp)
| set_completed_at (t : option Timestamp)
| set_result (r : option string)
| set_error (e : option string)
| set_duration_ms (d : option Z)
| set_cost_usd (c : Qc)
| set_session_id (s : option string).

Definition assign (t : Task) (u : FieldUpdate) : Task :=
  let mk cr st pr re er sa ca du co se :=
    {| id := id t; created_at := cr; updated_at := updated_at t;
       status := st; prompt := prompt t; project_path := project_path t;
       model := model t; priority := pr; result := re; error := er;
       started_at := sa; completed_at := ca; duration_ms := du;
       cost_usd := co; session_id := se; metadata := metadata t |} in
  let cr := created_at t in let st := status t in let pr := priority t in
  let re := result t in let er := error t in let sa := started_at t in
  let ca := completed_at t in let du := duration_ms t in
  let co := cost_usd t in let se := session_id t in
  match u with
  | set_status s => mk cr s pr re er sa ca du co se
  | set_priority p => mk cr st p re er sa ca du co se
  | set_created_at c => mk c st pr re er sa ca du co se
  | set_started_at a => mk cr st pr re er a ca du co se
  | set_completed_at c => mk cr st pr re er sa c du co se
  | set_result r => mk cr st pr r er sa ca du co se
  | set_error e => mk cr st pr re e sa ca du co se
  | set_duration_ms d => mk cr st pr re er sa ca d co se
  | set_cost_usd c => mk cr st pr re er sa ca du c se
  | set_session_id s => mk cr st pr re er sa ca du co s
  end.

Definition touch (now : Timestamp) (t : Task) : Task :=
  {| id := id t; created_at := created_at t; updated_at := now;
     status := status t; prompt := prompt t; project_path := project_path t;
     model := model t; priority := priority t; result := result t;
     error := error t; started_at := started_at t;
     completed_at := completed_at t; duration_ms := duration_ms t;
     cost_usd := cost_usd t; session_id := session_id t;
     metadata := metadata t |}.

(** [{...task, ...updates, updated_at: this.now()}] *)
Definition merge (now : Timestamp) (t : Task) (updates : list FieldUpdate) : Task :=
  touch now (foldl assign t updates).

(** [x || d] on an optional string: the empty string is falsy too. *)
Definition or_string (x : option string) (d : string) : string :=
  match x with
  | Some s => if bool_decide (s = "") then d else s
  | None => d
  end.

(** [x || d] on an optional number: [0] is falsy too. *)
Definition or_number (x : option Z) (d : Z) : Z :=
  match x with
  | Some n => if bool_decide (n = 0) then d else n
  | None => d
  end.

(** [create(taskData)]; [newId] is what [this.generateId()] returned. *)
Definition create (newId : string) (now : Timestamp) (taskData : TaskData)
    (tasks : list Task) : Task * list Task :=
  let task :=
    {| id := newId; created_at := now; updated_at := now;
       status := pending;
       prompt := td_prompt taskData;
       project_path := td_project_path taskData;
       model := or_string (td_model taskData) "claude-sonnet-4-5";
       priority := or_number (td_priority taskData) 5;
       result := None; error := None; started_at := None;
       completed_at := None; duration_ms := None; cost_usd := 0%Qc;
       session_id := None;
       metadata := default empty_metadata (td_metadata taskData) |} in
  (task, tasks ++ [task]).

(** [tasks.find(t => t.id === taskId)] *)
Definition get (taskId : string) (tasks : list Task) : option Task :=
  snd <$> list_find (λ t, id t = taskId) tasks.

(** [update(taskId, updates)]: the returned record and the new document. *)
Definition update (now : Timestamp) (taskId : string)
    (updates : list FieldUpdate) (tasks : list Task)
    : option Task * list Task :=
  match list_find (λ t, id t = taskId) tasks with
  | None => (None, tasks)
  | Some (index, t) =>
      let t' := merge now t updates in (Some t', <[index := t']> tasks)
  end.

(** [delete(taskId)]: [splice(index, 1)]. *)
Definition delete (taskId : string) (tasks : list Task) : bool * list Task :=
  match list_find (λ t, id t = taskId) tasks with
  | None => (false, tasks)
  | Some (index, _) => (true, delete index tasks)
  end.

(** The comparator of [list] and [getNextPending]. *)
Definition compare (a b : Task) : Z :=
  if bool_decide (priority a ≠ priority b) then priority b - priority a
  else created_at a - created_at b.

Record ListOptions := {
  opt_status : option TaskStatus;
  opt_limit : option Z;
}.

(** [getNextPending()]: [pendingTasks[0] || null]. *)
Definition getNextPending (tasks : list Task) : option Task :=
  head (array_sort compare (filter (λ t, status t = pending) tasks)).

Definition markProcessing (now : Timestamp) (taskId : string)
    (tasks : list Task) : option Task * list Task :=
  update now taskId [set_status processing; set_started_at (Some now)] tasks.

(** [task.started_at ? Date.now() - new Date(task.started_at).getTime() : null] *)
Definition duration_since (now : Timestamp) (task : Task) : option Z :=
  match started_at task with
  | Some s => Some (now - s)
  | None => None
  end.

(** [markCompleted(taskId, result, costUsd = 0)] *)
Definition markCompleted (now : Timestamp) (taskId : string)
    (res : option string) (costUsd : option Qc) (tasks : list Task)
    : option Task * list Task :=
  match get taskId tasks with
  | None => (None, tasks)
  | Some task =>
      update now taskId
        [set_status completed; set_completed_at (Some now); set_result res;
         set_cost_usd (default 0%Qc costUsd);
         set_duration_ms (duration_since now task)] tasks
  end.

Definition markFailed (now : Timestamp) (taskId : string)
    (err : option string) (tasks : list Task) : option Task * list Task :=
  match get taskId tasks with
  | None => (None, tasks)
  | Some task =>
      update now taskId
        [set_status failed; set_completed_at (Some now); set_error err;
         set_duration_ms (duration_since now task)] tasks
  end.

Definition cancel (now : Timestamp) (taskId : string) (tasks : list Task)
    : option Task * list Task :=
  match get taskId tasks with
  | None => (None, tasks)
  | Some task =>
      if bool_decide (status task ≠ pending ∧ status task ≠ processing)
      then (None, tasks)
      else update now taskId
             [set_status cancelled; set_completed_at (Some now)] tasks
  end.

Definition terminal (s : TaskStatus) : bool :=
  match s with
  | completed | failed | cancelled => true
  | pending | processing => false
  end.

(** [cleanup(retentionDays)]; [cutoff] is the [cutoffDate] the source
    computes from the clock and [retentionDays].  A record is kept when
    [new Date(t.completed_at || t.created_at) > cutoffDate] or its status
    is not terminal. *)
Definition cleanup (cutoff : Timestamp) (tasks : list Task) : Z * list Task :=
  let kept :=
    filter (λ t, cutoff < default (created_at t) (completed_at t) ∨
                 (status t ≠ completed ∧ status t ≠ failed ∧
                  status t ≠ cancelled)) tasks in
  (Z.of_nat (length tasks) - Z.of_nat (length kept), kept).

(** What [getStats()] returns. *)
Record Stats := {
  stats_total : Z;
  stats_pending : Z;
  stats_processing : Z;
  stats_completed : Z;
  stats_failed : Z;
  stats_cancelled : Z;
  stats_total_cost_usd : Qc;
}.



(** [list(options)].  Without a status filter the source sorts the
    document's own array in place; only the returned array is modelled. *)
Definition list (options : ListOptions) (tasks : list Task) : list Task :=
  let tasks1 :=
    match opt_status options with
    | Some s => filter (λ t, status t = s) tasks
    | None => tasks
    end in
  let tasks2 := array_sort compare tasks1 in
  match opt_limit options with
  | Some n => if bool_decide (n = 0) then tasks2 else slice0 n tasks2
  | None => tasks2
  end.

End TaskStore.

(** ** SessionStore (storage/sessionStore.js) *)

Module SessionStore.

Inductive SessionStatus := active | archived.

#[export] Instance SessionStatus_eq_dec : EqDecision SessionStatus.
Proof. solve_decision. Defined.

Record Session := {
  id : string;
  created_at : Timestamp;
  updated_at : Timestamp;
  model : string;
  project_path : option string;
  total_cost_usd : Qc;
  messages_count : Z;
  status : SessionStatus;
  metadata : list (string * string);
}.

Record SessionData := {
  sd_model : option string;
  sd_project_path : option string;
  sd_metadata : option (list (string * string));
}.

(** One [key: value] pair of a patch object. *)
Inductive FieldUpdate :=
| set_status (s : SessionStatus)
| set_model (m : string)
| set_total_cost_usd (c : Qc)
| set_messages_count (n : Z)
| set_metadata (m : list (string * string)).

Definition assign (s : Session) (u : FieldUpdate) : Session :=
  let mk mo co me st md :=
    {| id := id s; created_at := created_at s; updated_at := updated_at s;
       model := mo; project_path := project_path s; total_cost_usd := co;
       messages_count := me; status := st; metadata := md |} in
  match u with
  | set_status x =>
      mk (model s) (total_cost_usd s) (messages_count s) x (metadata s)
  | set_model x =>
      mk x (total_cost_usd s) (messages_count s) (status s) (metadata s)
  | set_total_cost_usd x =>
      mk (model s) x (messages_count s) (status s) (metadata s)
  | set_messages_count x =>
      mk (model s) (total_cost_usd s) x (status s) (metadata s)
  | set_metadata x =>
      mk (model s) (total_cost_usd s) (messages_count s) (status s) x
  end.

Definition touch (now : Timestamp) (s : Session) : Session :=
  {| id := id s; created_at := created_at s; updated_at := now;
     model := model s; project_path := project_path s;
     total_cost_usd := total_cost_usd s;
     messages_count := messages_count s; status := status s;
     metadata := metadata s |}.

Definition merge (now : Timestamp) (s : Session) (updates : list FieldUpdate)
    : Session :=
  touch now (foldl assign s updates).

(** [create(sessionData)]; [newId] is what [this.generateId()] returned. *)
Definition create (newId : string) (now : Timestamp) (sessionData : SessionData)
    (sessions : list Session) : Session * list Session :=
  let session :=
    {| id := newId; created_at := now; updated_at := now;
       model := TaskStore.or_string (sd_model sessionData) "claude-sonnet-4-5";
       project_path := sd_project_path sessionData;
       total_cost_usd := 0%Qc; messages_count := 0; status := active;
       metadata := default [] (sd_metadata sessionData) |} in
  (session, sessions ++ [session]).

Definition get (sessionId : string) (sessions : list Session) : option Session :=
  snd <$> list_find (λ s, id s = sessionId) sessions.

Definition update (now : Timestamp) (sessionId : string)
    (updates : list FieldUpdate) (sessions : list Session)
    : option Session * list Session :=
  match list_find (λ s, id s = sessionId) sessions with
  | None => (None, sessions)
  | Some (index, s) =>
      let s' := merge now s updates in (Some s', <[index := s']> sessions)
  end.

Definition delete (sessionId : string) (sessions : list Session)
    : bool * list Session :=
  match list_find (λ s, id s = sessionId) sessions with
  | None => (false, sessions)
  | Some (index, _) => (true, delete index sessions)
  end.

(** [cleanup(retentionDays)]; [cutoff] is the [cutoffDate] the source
    computes from the clock and [retentionDays]. *)
Definition cleanup (cutoff : Timestamp) (sessions : list Session)
    : Z * list Session :=
  let kept := filter (λ s, cutoff < updated_at s) sessions in
  (Z.of_nat (length sessions) - Z.of_nat (length kept), kept).

(** [incrementMessages(sessionId)]: the record found is mutated in place;
    [(session.messages_count || 0) + 1] is [messages_count + 1]. *)
Definition incrementMessages (now : Timestamp) (sessionId : string)
    (sessions : list Session) : option Session * list Session :=
  match list_find (λ s, id s = sessionId) sessions with
  | None => (None, sessions)
  | Some (index, s) =>
      let s' := touch now (assign s (set_messages_count (messages_count s + 1))) in
      (Some s', <[index := s']> sessions)
  end.

(** [addCost(sessionId, costUsd)]:
    [(session.total_cost_usd || 0) + costUsd] is [total_cost_usd + costUsd]. *)
Definition addCost (now : Timestamp) (sessionId : string) (costUsd : Qc)
    (sessions : list Session) : option Session * list Session :=
  match list_find (λ s, id s = sessionId) sessions with
  | None => (None, sessions)
  | Some (index, s) =>
      let s' := touch now
                  (assign s (set_total_cost_usd (total_cost_usd s + costUsd)%Qc)) in
      (Some s', <[index := s']> sessions)
  end.

(** The mutating operations of the store, as a caller issues them. *)
Inductive Op :=
| op_create (newId : string) (now : Timestamp) (sessionData : SessionData)
| op_update (now : Timestamp) (sessionId : string) (updates : list FieldUpdate)
| op_delete (sessionId : string)
| op_cleanup (cutoff : Timestamp)
| op_incrementMessages (now : Timestamp) (sessionId : string)
| op_addCost (now : Timestamp) (sessionId : string) (costUsd : Qc).

Definition step (sessions : list Session) (op : Op) : list Session :=
  match op with
  | op_create newId now d => (create newId now d sessions).2
  | op_update now sid us => (update now sid us sessions).2
  | op_delete sid => (delete sid sessions).2
  | op_cleanup cutoff => (cleanup cutoff sessions).2
  | op_incrementMessages now sid => (incrementMessages now sid sessions).2
  | op_addCost now sid c => (addCost now sid c sessions).2
  end.

Definition run (ops : list Op) (sessions : list Session) : list Session :=
  foldl step sessions ops.

End SessionStore.

(** ** WebhookNotifier (class [WebhookNotifier]) *)

Module WebhookNotifier.

Record Notifier := {
  enabled : bool;
  defaultUrl : option string;
  timeout : Z;
  maxRetries : Z;
}.

(** The constructor: [enabled || false], [timeout || 5000], [retries || 3]. *)
Definition make (cfg_enabled : option bool) (cfg_defaultUrl : option string)
    (cfg_timeout cfg_retries : option Z) : Notifier :=
  {| enabled := default false cfg_enabled;
     defaultUrl := cfg_defaultUrl;
     timeout := TaskStore.or_number cfg_timeout 5000;
     maxRetries := TaskStore.or_number cfg_retries 3 |}.

(** What the remote end does with one POST. *)
Inductive Reply :=
| http_status (code : Z)
| network_error (message : string).

(** What [await axios.post(...)] does in the source: it yields a response
    or throws an error. *)
Inductive PostOutcome :=
| resolved (status : Z)
| rejected (message : string).

(** axios is a dependency of the repository.  The call sets no
    [validateStatus], so the library's default applies: a reply whose
    status is outside 200..299 rejects the promise, with the message
    below. *)
Definition axios_post (r : Reply) : PostOutcome :=
  match r with
  | http_status code =>
      if bool_decide (200 ≤ code ∧ code < 300) then resolved code
      else rejected ("Request failed with status code " +:+ pretty code)
  | network_error m => rejected m
  end.

(** What [notify] returns. *)
Inductive Result :=
| skipped (reason : string)
| delivered (status attempt : Z)
| max_retries_exceeded (attempts : Z) (last_error : option string).

Definition success (r : Result) : bool :=
  match r with delivered _ _ => true | _ => false end.

(** What [notify] does besides returning, in order. *)
Inductive Action :=
| post (attempt : Z)
| sleep (delay : Z).

(** [Math.min(1000 * Math.pow(2, attempt - 1), 10000)] *)
Definition backoff (attempt : Z) : Z :=
  Z.min (1000 * 2 ^ (attempt - 1)) 10000.

(** The [for] loop of [notify], entered with [attempt].  [remaining] is
    the number of iterations left, [maxRetries - attempt + 1]; at zero the
    loop condition [attempt <= maxRetries] is false.  [outcome k] is what
    the [k]-th [axios.post] does. *)
Fixpoint attempts (outcome : Z → PostOutcome) (maxRetries : Z)
    (remaining : nat) (attempt : Z) (lastError : option string)
    : Result * list Action :=
  match remaining with
  | O => (max_retries_exceeded maxRetries lastError, [])
  | S remaining' =>
      match outcome attempt with
      | resolved st =>
          if bool_decide (200 ≤ st ∧ st < 300)
          then (delivered st attempt, [post attempt])
          else
            let r := attempts outcome maxRetries remaining' (attempt + 1)
                       (Some ("Unexpected status code: " +:+ pretty st)) in
            (r.1, post attempt :: r.2)
      | rejected message =>
          let pause :=
            if bool_decide (attempt < maxRetries) then [sleep (backoff attempt)]
            else [] in
          let r := attempts outcome maxRetries remaining' (attempt + 1)
                     (Some message) in
          (r.1, post attempt :: pause ++ r.2)
      end
  end.

(** A string as a condition: null and the empty string are falsy. *)
Definition truthy (x : option string) : option string :=
  match x with
  | Some s => if bool_decide (s = "") then None else Some s
  | None => None
  end.

(** [options.url || this.defaultUrl], when truthy. *)
Definition resolve_url (n : Notifier) (url : option string) : option string :=
  match truthy url with
  | Some u => Some u
  | None => truthy (defaultUrl n)
  end.

(** [notify(event, data, options)]; [url] is [options.url]. *)
Definition notify (n : Notifier) (outcome : Z → PostOutcome)
    (url : option string) : Result * list Action :=
  if negb (enabled n) then (skipped "disabled", [])
  else
    match resolve_url n url with
    | None => (skipped "no_url", [])
    | Some _ =>
        attempts outcome (maxRetries n) (Z.to_nat (maxRetries n)) 1 None
    end.

End WebhookNotifier.

(** ** TaskQueue (services/taskQueue.js)

    The methods of the queue are [async]: each runs until its next [await]
    and is resumed later, other callbacks running in between.  A method is
    embedded as the pieces between its [await]s; a suspended invocation is a
    [Continuation] held in the state, and an [Event] is what the event loop
    runs next.  A store call is applied when the invocation awaiting it is
    resumed.  [processQueue] is cut at each of its [await]s and
    [executeTask] at the call of the executor; [addTask], [cancelTask],
    [restorePendingTasks], the timeout callback and what [executeTask] does
    with the executor's answer each run in one turn. *)

Module TaskQueue.

(* The store's [list] and [delete] are written qualified; the short
   names keep their usual meaning. *)
Import TaskStore.
Local Abbreviation list := Datatypes.list (only parsing).
Local Abbreviation delete := base.delete (only parsing).

(** What [claudeExecutor.execute] yields. *)
Inductive ExecuteResult :=
| exec_success (res : option string) (duration : Z) (cost : option Qc)
    (executor_session_id : option string)
| exec_failure (err : option string) (duration : Z)
| exec_throw (message : string).

Record ActiveEntry := {
  entry_task : Task;
  startedAt : Timestamp;
}.

Inductive Continuation :=
(** [processQueue] at [await this.taskStore.getNextPending()] *)
| await_getNextPending
(** [processQueue] at [await this.taskStore.markProcessing(task.id)] *)
| await_markProcessing (task : Task)
(** [executeTask] at [await this.claudeExecutor.execute(...)];
    [timer] tells whether its timeout is still armed *)
| await_execute (task : Task) (timer : bool)
(** a [setImmediate(() => this.processQueue())] not yet run *)
| immediate_processQueue
(** [stop] at [await new Promise(resolve => setTimeout(resolve, 100))] *)
| stop_sleeping
(** the callback [stop] gave to [setTimeout(..., 10000)], not yet run *)
| stop_deadline.

(** An [emit] of the queue, an event handed to the webhook notifier, or a
    line of the log. *)
Inductive Notice :=
| emitted (event : string) (taskId : string)
| webhook (event : string) (taskId : string)
| logged (message : string).

Record State := {
  concurrency : nat;
  running : bool;
  pendingCheckInterval : bool;
  activeTasks : gmap string ActiveEntry;
  (** the document of [this.taskStore] *)
  tasks : list Task;
  (** the document of the server's session store; the queue holds no
      reference to that store *)
  sessions : list SessionStore.Session;
  has_notifier : bool;
  suspended : list Continuation;
  notices : list Notice;
}.

Definition with_queue (q : State) (r : bool) (i : bool)
    (a : gmap string ActiveEntry) (ts : list Task) (k : list Continuation)
    (n : list Notice) : State :=
  {| concurrency := concurrency q; running := r; pendingCheckInterval := i;
     activeTasks := a; tasks := ts; sessions := sessions q;
     has_notifier := has_notifier q; suspended := k; notices := n |}.

Definition set_running (r i : bool) (q : State) : State :=
  with_queue q r i (activeTasks q) (tasks q) (suspended q) (notices q).
Definition set_active (a : gmap string ActiveEntry) (q : State) : State :=
  with_queue q (running q) (pendingCheckInterval q) a (tasks q) (suspended q)
    (notices q).
Definition set_tasks (ts : list Task) (q : State) : State :=
  with_queue q (running q) (pendingCheckInterval q) (activeTasks q) ts
    (suspended q) (notices q).
Definition set_suspended (k : list Continuation) (q : State) : State :=
  with_queue q (running q) (pendingCheckInterval q) (activeTasks q) (tasks q)
    k (notices q).
Definition suspend (c : Continuation) (q : State) : State :=
  set_suspended (suspended q ++ [c]) q.
Definition notice (n : list Notice) (q : State) : State :=
  with_queue q (running q) (pendingCheckInterval q) (activeTasks q) (tasks q)
    (suspended q) (notices q ++ n).

(** The constructor: [config.taskQueue?.concurrency || 3]. *)
Definition new (cfg_concurrency : option nat) (ts : list Task)
    (ss : list SessionStore.Session) (notifier : bool) : State :=
  {| concurrency := match cfg_concurrency with
                    | Some (S n) => S n
                    | _ => 3%nat
                    end;
     running := false; pendingCheckInterval := false; activeTasks := ∅;
     tasks := ts; sessions := ss; has_notifier := notifier;
     suspended := []; notices := [] |}.

(** [processQueue()], up to its first [await]. *)
Definition processQueue (q : State) : State :=
  if negb (running q) then q
  else if bool_decide (concurrency q ≤ size (activeTasks q))%nat then q
  else suspend await_getNextPending q.

(** [processQueue()], resumed with the task store's answer. *)
Definition processQueue_next (now : Timestamp) (q : State) : State :=
  match getNextPending (tasks q) with
  | None => q
  | Some task =>
      if bool_decide (is_Some (activeTasks q !! id task)) then q
      else
        suspend (await_markProcessing task)
          (set_active
             (<[id task := {| entry_task := task; startedAt := now |}]>
                (activeTasks q)) q)
  end.

(** The webhook sent for a task: the custom event when the task carries a
    URL, the stock one otherwise, none without a notifier. *)
Definition send_webhook (task : Task) (custom stock : string) (q : State)
    : State :=
  if has_notifier q then
    match webhook_url (metadata task) with
    | Some u =>
        if bool_decide (u = "") then notice [webhook stock (id task)] q
        else notice [webhook custom (id task)] q
    | None => notice [webhook stock (id task)] q
    end
  else q.

(** [executeTask(task)], up to [await this.claudeExecutor.execute(...)]. *)
Definition executeTask (now : Timestamp) (task : Task) (q : State) : State :=
  suspend (await_execute task true)
    (set_active
       (<[id task := {| entry_task := task; startedAt := now |}]>
          (activeTasks q)) q).

(** [processQueue()], resumed after [markProcessing]: [ok] is false when
    the store call threw. *)
Definition processQueue_marked (now : Timestamp) (ok : bool) (task : Task)
    (q : State) : State :=
  if ok then
    executeTask now task
      (set_tasks (markProcessing now (id task) (tasks q)).2 q)
  else set_active (delete (id task) (activeTasks q)) q.

(** The [finally] block of [executeTask]. *)
Definition executeTask_finally (task : Task) (q : State) : State :=
  suspend immediate_processQueue
    (set_active (delete (id task) (activeTasks q)) q).

(** [executeTask(task)], resumed with the executor's answer. *)
Definition executeTask_executed (now : Timestamp) (r : ExecuteResult)
    (task : Task) (q : State) : State :=
  let taskId := id task in
  executeTask_finally task
    match r with
    | exec_success res _ cost _ =>
        send_webhook task "task.completed" "task.completed"
          (notice [emitted "taskCompleted" taskId]
             (set_tasks (markCompleted now taskId res cost (tasks q)).2 q))
    | exec_failure err _ =>
        send_webhook task "task.failed" "task.failed"
          (notice [emitted "taskFailed" taskId]
             (set_tasks (markFailed now taskId err (tasks q)).2 q))
    | exec_throw message =>
        send_webhook task "task.error" "task.failed"
          (notice [emitted "taskFailed" taskId]
             (set_tasks (markFailed now taskId (Some message) (tasks q)).2 q))
    end.

(** The callback of the timeout armed by [executeTask]. *)
Definition executeTask_timeout (now : Timestamp) (task : Task) (q : State)
    : State :=
  let taskId := id task in
  processQueue
    (send_webhook task "task.timeout" "task.failed"
       (notice [emitted "taskFailed" taskId]
          (set_active (delete taskId (activeTasks q))
             (set_tasks
                (markFailed now taskId (Some "Task execution timeout")
                   (tasks q)).2 q)))).

(** [addTask(taskData)] *)
Definition addTask (newId : string) (now : Timestamp) (taskData : TaskData)
    (q : State) : Task * State :=
  let r := create newId now taskData (tasks q) in
  (r.1, suspend immediate_processQueue (set_tasks r.2 q)).

Inductive CancelResult :=
| cancel_ok
| cancel_error (message : string).

Definition status_name (s : TaskStatus) : string :=
  match s with
  | pending => "pending" | processing => "processing"
  | completed => "completed" | failed => "failed" | cancelled => "cancelled"
  end.

(** [cancelTask(taskId)] *)
Definition cancelTask (now : Timestamp) (taskId : string) (q : State)
    : CancelResult * State :=
  match get taskId (tasks q) with
  | None => (cancel_error "Task not found", q)
  | Some task =>
      if bool_decide (status task ≠ pending ∧ status task ≠ processing)
      then (cancel_error ("Cannot cancel task with status: "
                            +:+ status_name (status task)), q)
      else
        let q1 := set_active (delete taskId (activeTasks q)) q in
        let r := cancel now taskId (tasks q1) in
        match r.1 with
        | Some _ =>
            (cancel_ok,
             (if has_notifier q then notice [webhook "task.cancelled" taskId]
              else λ x, x)
               (notice [emitted "taskCancelled" taskId] (set_tasks r.2 q1)))
        | None => (cancel_error "Failed to cancel task", set_tasks r.2 q1)
        end
  end.

(** The loop of [restorePendingTasks]: [clock k] is the reading of the
    clock at the [k]-th update. *)
Fixpoint reset_each (clock : nat → Timestamp) (k : nat)
    (processingTasks : list Task) (ts : list Task) : list Task :=
  match processingTasks with
  | [] => ts
  | task :: rest =>
      reset_each clock (S k) rest
        (update (clock k) (id task) [set_status pending] ts).2
  end.

(** [restorePendingTasks()] *)
Definition restorePendingTasks (clock : nat → Timestamp) (q : State) : State :=
  let processingTasks :=
    TaskStore.list {| opt_status := Some processing; opt_limit := None |}
      (tasks q) in
  set_tasks (reset_each clock 0 processingTasks (tasks q)) q.

(** [start()] *)
Definition start (clock : nat → Timestamp) (q : State) : State :=
  if running q then q
  else
    let q1 := restorePendingTasks clock
                (set_running true (pendingCheckInterval q) q) in
    set_running true true (processQueue q1).

Definition is_stop_deadline (c : Continuation) : bool :=
  match c with stop_deadline => true | _ => false end.

Definition is_stop_sleeping (c : Continuation) : bool :=
  match c with stop_sleeping => true | _ => false end.

(** The loop of [stop()], from the test of its condition:
    [while (this.activeTasks.size > 0) await sleep(100)], then
    [clearTimeout(timeout)] and the closing log line. *)
Definition stop_loop (q : State) : State :=
  if bool_decide (0 < size (activeTasks q))%nat then suspend stop_sleeping q
  else
    notice [logged "Task queue stopped"]
      (set_suspended
         (List.filter (λ c, negb (is_stop_deadline c)) (suspended q)) q).

(** [stop()], up to its first [await]. *)
Definition stop (q : State) : State :=
  if negb (running q) then q
  else stop_loop (suspend stop_deadline (set_running false false q)).

(** The callback of the 10 s timer of [stop()]. *)
Definition stop_deadline_fired (q : State) : State :=
  if bool_decide (0 < size (activeTasks q))%nat
  then notice [logged "Forcing shutdown with active tasks"] q
  else q.

(** [stop()] has been called and has not returned. *)
Definition stop_waiting (q : State) : bool :=
  existsb is_stop_sleeping (suspended q).

(** What the event loop runs next.  [k] is a position in [suspended]. *)
Inductive Event :=
| ev_tick
| ev_addTask (newId : string) (now : Timestamp) (taskData : TaskData)
| ev_cancelTask (now : Timestamp) (taskId : string)
| ev_immediate (k : nat)
| ev_nextPending (k : nat) (now : Timestamp)
| ev_marked (k : nat) (now : Timestamp) (ok : bool)
| ev_executed (k : nat) (now : Timestamp) (r : ExecuteResult)
| ev_timeout (k : nat) (now : Timestamp)
| ev_stop
| ev_stop_wake (k : nat)
| ev_stop_deadline (k : nat).

Definition drop_suspended (k : nat) (q : State) : State :=
  set_suspended (delete k (suspended q)) q.

(** One turn of the event loop; an event that does not apply leaves the
    state as it is. *)
Definition step (q : State) (e : Event) : State :=
  match e with
  | ev_tick => if pendingCheckInterval q then processQueue q else q
  | ev_addTask newId now d => (addTask newId now d q).2
  | ev_cancelTask now taskId => (cancelTask now taskId q).2
  | ev_immediate k =>
      match suspended q !! k with
      | Some immediate_processQueue => processQueue (drop_suspended k q)
      | _ => q
      end
  | ev_nextPending k now =>
      match suspended q !! k with
      | Some await_getNextPending => processQueue_next now (drop_suspended k q)
      | _ => q
      end
  | ev_marked k now ok =>
      match suspended q !! k with
      | Some (await_markProcessing task) =>
          processQueue_marked now ok task (drop_suspended k q)
      | _ => q
      end
  | ev_executed k now r =>
      match suspended q !! k with
      | Some (await_execute task _) =>
          executeTask_executed now r task (drop_suspended k q)
      | _ => q
      end
  | ev_timeout k now =>
      match suspended q !! k with
      | Some (await_execute task true) =>
          executeTask_timeout now task
            (set_suspended (<[k := await_execute task false]> (suspended q)) q)
      | _ => q
      end
  | ev_stop => stop q
  | ev_stop_wake k =>
      match suspended q !! k with
      | Some stop_sleeping => stop_loop (drop_suspended k q)
      | _ => q
      end
  | ev_stop_deadline k =>
      match suspended q !! k with
      | Some stop_deadline => stop_deadline_fired (drop_suspended k q)
      | _ => q
      end
  end.

Definition run (events : list Event) (q : State) : State :=
  foldl step q events.

(** The calls a turn of the event loop makes on the task store. *)
Inductive StoreCall :=
| call_none
| call_create (newId : string) (now : Timestamp) (taskData : TaskData)
| call_markProcessing (now : Timestamp) (taskId : string)
| call_markCompleted (now : Timestamp) (taskId : string)
    (res : option string) (costUsd : option Qc)
| call_markFailed (now : Timestamp) (taskId : string) (err : option string)
| call_cancel (now : Timestamp) (taskId : string).

Definition store_call (c : StoreCall) (ts : list Task) : list Task :=
  match c with
  | call_none => ts
  | call_create newId now d => (create newId now d ts).2
  | call_markProcessing now taskId => (markProcessing now taskId ts).2
  | call_markCompleted now taskId res cost =>
      (markCompleted now taskId res cost ts).2
  | call_markFailed now taskId err => (markFailed now taskId err ts).2
  | call_cancel now taskId => (cancel now taskId ts).2
  end.

End TaskQueue.

(** ** The HTTP layer (routes/claude.js) *)

Module ClaudeRoutes.

(** The body of [POST /api/claude], the fields the asynchronous path uses. *)
Record Body := {
  prompt : string;
  project_path : option string;
  model : option string;
  session_id : option string;
  body_system_prompt : option string;
  body_max_budget_usd : option Qc;
  body_allowed_tools : option (list string);
  body_disallowed_tools : option (list string);
  body_agent : option string;
  body_mcp_config : option string;
  body_webhook_url : option string;
  priority : option Z;
}.

(** [x || y] on optional strings. *)
Definition or_else (x y : option string) : option string :=
  match x with
  | Some s => if bool_decide (s = "") then y else x
  | None => y
  end.

(** The argument the handler passes to [taskQueue.addTask]; [sessionId]
    is the session of the request, given or created by the handler. *)
Definition task_data (body : Body) (sessionId : option string)
    (defaultProjectPath defaultUrl : option string) : TaskStore.TaskData :=
  {| TaskStore.td_prompt := prompt body;
     TaskStore.td_project_path := or_else (project_path body) defaultProjectPath;
     TaskStore.td_model := model body;
     TaskStore.td_priority := Some (TaskStore.or_number (priority body) 5);
     TaskStore.td_session_id := None;
     TaskStore.td_metadata :=
       Some {| webhook_url := or_else (body_webhook_url body) defaultUrl;
               meta_session_id := sessionId;
               system_prompt := body_system_prompt body;
               max_budget_usd := body_max_budget_usd body;
               allowed_tools := body_allowed_tools body;
               disallowed_tools := body_disallowed_tools body;
               agent := body_agent body;
               mcp_config := body_mcp_config body |} |}.

End ClaudeRoutes.

(** ** The task routes (routes/tasks.js) *)

Module TaskRoutes.

Import TaskStore.
Local Abbreviation list := Datatypes.list (only parsing).

(** The JSON body of a response. *)
Inductive Body :=
| task_body (task : Task)
| priority_updated (task_id : string) (old_priority new_priority : Z)
| cancel_body (result : TaskQueue.CancelResult)
| error_body (error : string).

(** [GET /api/tasks/:id] *)
Definition get_task (taskId : string) (tasks : list Task) : Z * Body :=
  match get taskId tasks with
  | None => (404, error_body "Task not found")
  | Some task => (200, task_body task)
  end.

(** [PATCH /api/tasks/:id/priority]; [priority] is [req.body.priority]
    when it is a number, [None] otherwise. *)
Definition patch_priority (now : Timestamp) (taskId : string)
    (priority : option Z) (tasks : list Task) : (Z * Body) * list Task :=
  match priority with
  | None =>
      ((400, error_body "Priority must be a number between 1 and 10"), tasks)
  | Some p =>
      if bool_decide (p < 1 ∨ p > 10)
      then ((400, error_body "Priority must be a number between 1 and 10"),
            tasks)
      else
        match get taskId tasks with
        | None => ((404, error_body "Task not found"), tasks)
        | Some task =>
            if bool_decide (status task ≠ pending ∧ status task ≠ processing)
            then ((400, error_body
                          ("Cannot modify priority for task with status: "
                           +:+ TaskQueue.status_name (status task))), tasks)
            else
              ((200, priority_updated taskId (TaskStore.priority task) p),
               (update now taskId [set_priority p] tasks).2)
        end
  end.


End TaskRoutes.

(** ** Scenarios

    Concrete stores, queues and runs of the event loop, used below to
    evaluate the code. *)

Module Scenario.

Import TaskStore.
Local Abbreviation list := Datatypes.list (only parsing).

(** A submission with the given prompt, bound to session [sid] the way the
    HTTP layer binds it. *)
Definition submission (p : string) (sid : option string) : TaskData :=
  ClaudeRoutes.task_data
    {| ClaudeRoutes.prompt := p; ClaudeRoutes.project_path := None;
       ClaudeRoutes.model := None; ClaudeRoutes.session_id := sid;
       ClaudeRoutes.body_system_prompt := None;
       ClaudeRoutes.body_max_budget_usd := None;
       ClaudeRoutes.body_allowed_tools := None;
       ClaudeRoutes.body_disallowed_tools := None;
       ClaudeRoutes.body_agent := None; ClaudeRoutes.body_mcp_config := None;
       ClaudeRoutes.body_webhook_url := None;
       ClaudeRoutes.priority := None |}
    sid None None.

(** A started queue over an empty task store, its first dispatch done. *)
Definition server (concurrency : nat) (ss : list SessionStore.Session)
    : TaskQueue.State :=
  TaskQueue.run [TaskQueue.ev_nextPending 0 1]
    (TaskQueue.start (λ _, 0)
       (TaskQueue.new (Some concurrency) [] ss true)).

Definition one_cent : Qc := Q2Qc (1 # 100).

Definition success : TaskQueue.ExecuteResult :=
  TaskQueue.exec_success (Some "done") 50 (Some one_cent) None.

(** Task [t1] is submitted, dispatched and handed to the executor. *)
Definition t1_executing : TaskQueue.State :=
  TaskQueue.run
    [TaskQueue.ev_addTask "t1" 10 (submission "a" None);
     TaskQueue.ev_immediate 0;
     TaskQueue.ev_nextPending 0 20;
     TaskQueue.ev_marked 0 21 true]
    (server 1 []).

(** The executor answers after the task was cancelled. *)
Definition late_after_cancel : list TaskQueue.Event :=
  [TaskQueue.ev_cancelTask 30 "t1"; TaskQueue.ev_executed 0 40 success].

(** [stop] is called while [t1] is being executed; its loop wakes up 100
    times, the 10 s timer fires, and the loop wakes up [n] more times. *)
Definition stop_past_deadline (n : nat) : list TaskQueue.Event :=
  [TaskQueue.ev_stop] ++ replicate 100 (TaskQueue.ev_stop_wake 2)
  ++ [TaskQueue.ev_stop_deadline 1] ++ replicate n (TaskQueue.ev_stop_wake 1).

(** [stop] is called, the executor answers after 15 s, the loop wakes up. *)
Definition stop_after_answer : list TaskQueue.Event :=
  stop_past_deadline 50
  ++ [TaskQueue.ev_executed 0 15021 success; TaskQueue.ev_stop_wake 0].

(** A task is submitted and its dispatch waits for the task store when
    [stop] is called; then the store answers. *)
Definition stopped_mid_dispatch : list TaskQueue.Event :=
  [TaskQueue.ev_addTask "t1" 10 (submission "a" None);
   TaskQueue.ev_immediate 0;
   TaskQueue.ev_stop;
   TaskQueue.ev_nextPending 0 20].

(** The executor answers after the timeout fired. *)
Definition late_after_timeout : list TaskQueue.Event :=
  [TaskQueue.ev_timeout 0 300021; TaskQueue.ev_executed 0 300040 success].

(** Two submissions, each followed by its dispatch; the second dispatch
    is answered by the task store only after the first has marked its
    task. *)
Definition overlapping_dispatches : list TaskQueue.Event :=
  [TaskQueue.ev_addTask "t1" 10 (submission "a" None);
   TaskQueue.ev_addTask "t2" 11 (submission "b" None);
   TaskQueue.ev_immediate 0;
   TaskQueue.ev_immediate 0;
   TaskQueue.ev_nextPending 0 20;
   TaskQueue.ev_marked 1 21 true;
   TaskQueue.ev_nextPending 0 22].

(** Session [S] and three tasks bound to it, each run to success at a
    cost of 0.01. *)
Definition session_S : list SessionStore.Session :=
  (SessionStore.create "S" 0
     {| SessionStore.sd_model := None;
        SessionStore.sd_project_path := Some "/srv";
        SessionStore.sd_metadata := None |} []).2.

Definition three_successes : list TaskQueue.Event :=
  [TaskQueue.ev_addTask "t1" 10 (submission "a" (Some "S"));
   TaskQueue.ev_addTask "t2" 11 (submission "b" (Some "S"));
   TaskQueue.ev_addTask "t3" 12 (submission "c" (Some "S"));
   TaskQueue.ev_immediate 0; TaskQueue.ev_nextPending 2 20;
   TaskQueue.ev_marked 2 21 true;
   TaskQueue.ev_immediate 0; TaskQueue.ev_nextPending 2 22;
   TaskQueue.ev_marked 2 23 true;
   TaskQueue.ev_immediate 0; TaskQueue.ev_nextPending 2 24;
   TaskQueue.ev_marked 2 25 true;
   TaskQueue.ev_executed 0 100 success;
   TaskQueue.ev_executed 0 101 success;
   TaskQueue.ev_executed 0 102 success].

(** The process is killed while [t1] is being executed and [t2] waits;
    a new queue is built over the documents left on disk. *)
Definition after_crash : TaskQueue.State :=
  TaskQueue.new (Some 1%nat)
    (TaskQueue.tasks
       (TaskQueue.run [TaskQueue.ev_addTask "t2" 30 (submission "b" None)]
          t1_executing))
    [] true.

(** A stored task, pending, of the given id, priority and creation time. *)
Definition stored (i : string) (p : Z) (c : Timestamp) : Task :=
  (create i c {| td_prompt := "p"; td_project_path := None;
                 td_model := None; td_priority := Some p;
                 td_session_id := None; td_metadata := None |} []).1.

(** Three pending tasks of one priority created in the same millisecond,
    stored in the order b, a, c. *)
Definition tied_tasks : list Task :=
  [stored "b" 5 1000; stored "a" 5 1000; stored "c" 5 1000].

End Scenario.

(** ** The order in which tasks are drawn *)

Module Ordering.

Import TaskStore.
Local Abbreviation list := Datatypes.list (only parsing).

(** [a] goes before [b]: higher priority, or the same priority and an
    earlier creation. *)
Definition before (a b : Task) : Prop :=
  priority b < priority a ∨
  (priority a = priority b ∧ created_at a < created_at b).

Definition tied (a b : Task) : Prop :=
  priority a = priority b ∧ created_at a = created_at b.

(** In the words of the specification: [t] is the pending task that is
    first by priority, then creation time, ties going to the id that is
    first under [id_le]. *)
Definition first_with_id_ties (id_le : string → string → bool)
    (tasks : list Task) (t : Task) : Prop :=
  t ∈ tasks ∧ status t = pending ∧
  ∀ u, u ∈ tasks → status u = pending →
       before t u ∨ (tied t u ∧ id_le (id t) (id u) = true).

(** What the code does: ties go to the task stored first. *)
Definition first_with_storage_ties (tasks : list Task) (t : Task) : Prop :=
  ∃ i, tasks !! i = Some t ∧ status t = pending ∧
       ∀ j u, tasks !! j = Some u → status u = pending →
              before t u ∨ (tied t u ∧ (i ≤ j)%nat).

(** The limit of [list]: [options.limit] is skipped when falsy. *)
Definition limited (limit : option Z) (l : list Task) : list Task :=
  match limit with
  | Some n => if bool_decide (n = 0) then l else slice0 n l
  | None => l
  end.

End Ordering.

(** ** Deliveries *)

Module Delivery.

Import WebhookNotifier.

Definition is_2xx (r : Reply) : bool :=
  match r with
  | http_status code => bool_decide (200 ≤ code ≤ 299)
  | network_error _ => false
  end.

(** The message of the error [axios.post] throws on a reply. *)
Definition failure_message (r : Reply) : string :=
  match r with
  | http_status code => "Request failed with status code " +:+ pretty code
  | network_error m => m
  end.

(** Attempts [first] to [k - 1], each followed by its backoff sleep, then
    attempt [k]. *)
Definition retries_from (first k : Z) : list Action :=
  flat_map (λ j, [post j; sleep (backoff j)]) (seqZ first (k - first))
  ++ [post k].

Definition retries (k : Z) : list Action := retries_from 1 k.

Definition posts (actions : list Action) : list Z :=
  omap (λ a, match a with post k => Some k | sleep _ => None end) actions.

(** The endpoint of scenario S5: 503 twice, then 200. *)
Definition flaky (attempt : Z) : Reply :=
  if bool_decide (attempt ≤ 2) then http_status 503 else http_status 200.

Definition notifier : Notifier :=
  make (Some true) (Some "http://hook.example/cb") None None.

End Delivery.

(** ** Accrual on sessions *)

Module Accrual.

Import SessionStore.
Local Abbreviation list := Datatypes.list (only parsing).





(** The document with the first record of id [sessionId] replaced by its
    image under [f]. *)
Definition in_place (sessionId : string) (f : Session → Session)
    (sessions : list Session) : list Session :=
  match list_find (λ s, id s = sessionId) sessions with
  | None => sessions
  | Some (index, s) => <[index := f s]> sessions
  end.

Definition new_session : SessionData :=
  {| sd_model := None; sd_project_path := Some "/srv"; sd_metadata := None |}.




End Accrual.

(** ** Totals over the task store *)

Module Totals.

Import TaskStore.
Local Abbreviation list := Datatypes.list (only parsing).



(** A task the retention cleanup has to keep: not terminal, or younger
    than the cutoff. *)
Definition retained (cutoff : Timestamp) (t : Task) : Prop :=
  terminal (status t) = false ∨
  cutoff < default (created_at t) (completed_at t).

End Totals.

(** ** The shape of a delivery *)

Module Backoff.

Import WebhookNotifier.

(** A sleep of at least 1 s and at most 10 s. *)
Definition bounded (act : Action) : Prop :=
  match act with
  | sleep d => 1000 ≤ d ≤ 10000
  | post _ => True
  end.

(** The time spent sleeping, in milliseconds. *)
Definition slept (actions : list Action) : Z :=
  foldr (λ act acc, match act with sleep d => d + acc | post _ => acc end)
    0 actions.

Definition ends_with_post (actions : list Action) : Prop :=
  actions = [] ∨ ∃ k, last actions = Some (post k).

End Backoff.

(** ** SessionStore, the queries (storage/sessionStore.js) *)

Module SessionQueries.

Import SessionStore.

Record ListOptions := {
  opt_status : option SessionStatus;
  opt_project_path : option string;
  opt_limit : option Z;
}.

(** The comparator of [list] and [search]:
    [new Date(b.updated_at) - new Date(a.updated_at)]. *)
Definition compare (a b : Session) : Z := updated_at b - updated_at a.

(** [list(options)]: only the returned array is modelled.  An empty
    [project_path] and a [limit] of 0 are falsy and select nothing. *)
Definition list (options : ListOptions) (sessions : list Session)
    : list Session :=
  let sessions1 :=
    match opt_status options with
    | Some st => filter (λ s, status s = st) sessions
    | None => sessions
    end in
  let sessions2 :=
    match WebhookNotifier.truthy (opt_project_path options) with
    | Some p => filter (λ s, project_path s = Some p) sessions1
    | None => sessions1
    end in
  let sessions3 := array_sort compare sessions2 in
  match opt_limit options with
  | Some n => if bool_decide (n = 0) then sessions3 else slice0 n sessions3
  | None => sessions3
  end.

End SessionQueries.

(** ** SessionManager (services/sessionManager.js) *)

Module SessionManager.

Import SessionStore.

(** The [options] of [continueSession]. *)
Record Options := {
  o_prompt : string;
  o_model : option string;
  o_systemPrompt : option string;
  o_maxBudgetUsd : option Qc;
  o_stream : option bool;
}.

(** The object handed to [claudeExecutor.execute]. *)
Record ExecuteArgs := {
  arg_prompt : string;
  arg_projectPath : option string;
  arg_model : string;
  arg_sessionId : string;
  arg_systemPrompt : option string;
  arg_maxBudgetUsd : option Qc;
  arg_stream : option bool;
}.

(** What [continueSession] returns: an error object of its own, or
    whatever the executor answers to the arguments given. *)
Inductive Continued :=
| refused (error : string)
| executes (args : ExecuteArgs).

Definition status_name (s : SessionStatus) : string :=
  match s with
  | active => "active"
  | archived => "archived"
  end.

Definition continueSession (sessionId : string) (options : Options)
    (sessions : list Session) : Continued :=
  match get sessionId sessions with
  | None => refused ("Session not found: " +:+ sessionId)
  | Some session =>
      if bool_decide (status session ≠ active)
      then refused ("Session is not active: " +:+ status_name (status session))
      else executes
             {| arg_prompt := o_prompt options;
                arg_projectPath := project_path session;
                arg_model := TaskStore.or_string (o_model options) (model session);
                arg_sessionId := id session;
                arg_systemPrompt := o_systemPrompt options;
                arg_maxBudgetUsd := o_maxBudgetUsd options;
                arg_stream := o_stream options |}
  end.

(** [{ success: true, ... }] or [{ success: false, error: 'Session not found' }]. *)
Inductive Answer := done_ok | session_not_found.

Definition createSession (newId : string) (now : Timestamp)
    (sessionData : SessionData) (sessions : list Session)
    : Session * list Session :=
  create newId now sessionData sessions.

Definition deleteSession (sessionId : string) (sessions : list Session)
    : Answer * list Session :=
  let (deleted, sessions') := delete sessionId sessions in
  (if deleted then done_ok else session_not_found, sessions').

Definition updateSessionStatus (now : Timestamp) (sessionId : string)
    (st : SessionStatus) (sessions : list Session) : Answer * list Session :=
  let (session, sessions') := update now sessionId [set_status st] sessions in
  (match session with Some _ => done_ok | None => session_not_found end,
   sessions').

End SessionManager.

(** ** What a session has been charged *)

Module Ledger.

Import SessionStore Accrual.
Local Abbreviation list := Datatypes.list (only parsing).






End Ledger.

(** ** What a listing of sessions selects *)

Module Listing.

Import SessionStore SessionQueries.

(** The filters of [list] that are in force. *)
Definition matches (options : ListOptions) (s : Session) : Prop :=
  match opt_status options with
  | Some st => status s = st
  | None => True
  end ∧
  match WebhookNotifier.truthy (opt_project_path options) with
  | Some p => project_path s = Some p
  | None => True
  end.

#[export] Instance matches_dec options s : Decision (matches options s).
Proof.
  unfold matches.
  destruct (opt_status options), (WebhookNotifier.truthy _); apply _.
Defined.

Definition newest_first (a b : Session) : Prop := updated_at b ≤ updated_at a.

End Listing.

(** ** StatsStore (storage/statsStore.js) *)

Module StatsStore.

(** An entry of [models]. *)
Record ModelStat := {
  count : Z;
  cost_usd : Qc;
}.

(** A row of [daily].  A date [YYYY-MM-DD] is held as the number of its
    day, counted from 1970-01-01. *)
Record DailyEntry := {
  date : Z;
  total_requests : Z;
  successful_requests : Z;
  failed_requests : Z;
  total_cost_usd : Qc;
  total_input_tokens : Z;
  total_output_tokens : Z;
  avg_duration_ms : Z;
  daily_models : gmap string Z;
}.

(** The document: [requests], [tokens] and [costs] are written out field
    by field. *)
Record Stats := {
  daily : list DailyEntry;
  requests_total : Z;
  requests_successful : Z;
  requests_failed : Z;
  tokens_total_input : Z;
  tokens_total_output : Z;
  costs_total_usd : Qc;
  models : gmap string ModelStat;
}.

(** The [data] of [recordRequest]. *)
Record RequestData := {
  r_success : bool;
  r_input_tokens : option Z;
  r_output_tokens : option Z;
  r_cost_usd : option Qc;
  r_model : option string;
}.

Definition getDefaultData : Stats :=
  {| daily := []; requests_total := 0; requests_successful := 0;
     requests_failed := 0; tokens_total_input := 0; tokens_total_output := 0;
     costs_total_usd := 0%Qc; models := ∅ |}.

Definition ms_per_day : Z := 86400000.

(** [getToday()]: the UTC date of the clock. *)
Definition getToday (now : Timestamp) : Z := now `div` ms_per_day.

(** [new Date(d.date)]: midnight UTC of the date. *)
Definition day_start (d : Z) : Timestamp := d * ms_per_day.

(** [cleanupOldDailyEntries(retentionDays)]; [cutoff] is the [cutoffDate]
    the source computes from the clock and [retentionDays]. *)
Definition cleanupOldDailyEntries (cutoff : Timestamp)
    (rows : list DailyEntry) : list DailyEntry :=
  filter (λ d, cutoff ≤ day_start (date d)) rows.

Definition new_entry (today : Z) : DailyEntry :=
  {| date := today; total_requests := 0; successful_requests := 0;
     failed_requests := 0; total_cost_usd := 0%Qc; total_input_tokens := 0;
     total_output_tokens := 0; avg_duration_ms := 0; daily_models := ∅ |}.

(** The writes of [recordRequest] to [dailyEntry]. *)
Definition count_in (data : RequestData) (d : DailyEntry) : DailyEntry :=
  {| date := date d;
     total_requests := total_requests d + 1;
     successful_requests :=
       if r_success data then successful_requests d + 1
       else successful_requests d;
     failed_requests :=
       if r_success data then failed_requests d else failed_requests d + 1;
     total_cost_usd := (total_cost_usd d + default 0 (r_cost_usd data))%Qc;
     total_input_tokens :=
       total_input_tokens d + default 0 (r_input_tokens data);
     total_output_tokens :=
       total_output_tokens d + default 0 (r_output_tokens data);
     avg_duration_ms := avg_duration_ms d;
     daily_models :=
       match WebhookNotifier.truthy (r_model data) with
       | Some m => <[m := default 0 (daily_models d !! m) + 1]> (daily_models d)
       | None => daily_models d
       end |}.

(** [recordRequest(data)] at clock [now]: the row returned and the
    document left.  The row of today is found or pushed, written in place,
    and the rows older than [cutoff] are dropped last. *)
Definition recordRequest (now cutoff : Timestamp) (data : RequestData)
    (st : Stats) : DailyEntry * Stats :=
  let today := getToday now in
  let models' :=
    match WebhookNotifier.truthy (r_model data) with
    | Some m =>
        let e := default {| count := 0; cost_usd := 0%Qc |} (models st !! m) in
        <[m := {| count := count e + 1;
                  cost_usd := (cost_usd e + default 0 (r_cost_usd data))%Qc |}]>
          (models st)
    | None => models st
    end in
  let '(index, dailyEntry, daily1) :=
    match list_find (λ d, date d = today) (daily st) with
    | Some (i, d) => (i, d, daily st)
    | None => (length (daily st), new_entry today, daily st ++ [new_entry today])
    end in
  let dailyEntry' := count_in data dailyEntry in
  (dailyEntry',
   {| daily := cleanupOldDailyEntries cutoff (<[index := dailyEntry']> daily1);
      requests_total := requests_total st + 1;
      requests_successful :=
        if r_success data then requests_successful st + 1
        else requests_successful st;
      requests_failed :=
        if r_success data then requests_failed st else requests_failed st + 1;
      tokens_total_input :=
        tokens_total_input st + default 0 (r_input_tokens data);
      tokens_total_output :=
        tokens_total_output st + default 0 (r_output_tokens data);
      costs_total_usd := (costs_total_usd st + default 0 (r_cost_usd data))%Qc;
      models := models' |}).

(** [getByDate(date)]. *)
Definition getByDate (day : Z) (st : Stats) : option DailyEntry :=
  snd <$> list_find (λ d, date d = day) (daily st).

Definition reset (st : Stats) : Stats := getDefaultData.

(** One call of a writer of the store. *)
Inductive Call :=
| call_recordRequest (now cutoff : Timestamp) (data : RequestData)
| call_reset.

Definition apply_call (st : Stats) (c : Call) : Stats :=
  match c with
  | call_recordRequest now cutoff data => (recordRequest now cutoff data st).2
  | call_reset => reset st
  end.

Definition run (calls : list Call) (st : Stats) : Stats :=
  foldl apply_call st calls.

End StatsStore.

(** ** What the statistics should add up to *)

Module Tally.

Import StatsStore.




Definition one_if (b : bool) : Z := if b then 1 else 0.

(** A row whose counters agree with each other. *)
Definition row_ok (d : DailyEntry) : Prop :=
  total_requests d = successful_requests d + failed_requests d ∧
  0 ≤ successful_requests d ∧ 0 ≤ failed_requests d ∧
  1 ≤ total_requests d ∧ avg_duration_ms d = 0.

Definition rows_total (rows : list DailyEntry) : Z :=
  foldr (λ d acc, total_requests d + acc) 0 rows.

End Tally.

(** ** The handler of [POST /api/claude] (routes/claude.js) *)

Module ClaudeHandler.

Import ClaudeRoutes.

(** The keys of [config] the handler reads. *)
Record Config := {
  defaultProjectPath : option string;
  defaultModel : option string;
  webhook_defaultUrl : option string;
}.

(** What [createClaudeRoutes] was given: a session manager, a task queue. *)
Record Wiring := {
  has_sessionManager : bool;
  has_taskQueue : bool;
}.

(** A request: its body, the truthiness of [stream] and [async], and the
    error of [Validators.validateClaudeRequest], if any. *)
Record Request := {
  body : Body;
  stream : bool;
  isAsync : bool;
  validation_error : option string;
}.

Inductive Response :=
| json_error (code : Z) (error : string)
| task_created (task_id : string) (task_status : TaskStore.TaskStatus)
    (task_priority : Z) (sessionId : option string)
    (task_webhook_url : option string)
| executed (sessionId : option string) (projectPath : option string).

(** The status code of a response; [success] is what the executor's
    result says. *)
Definition status_code (success : bool) (r : Response) : Z :=
  match r with
  | json_error code _ => code
  | task_created _ _ _ _ _ => 202
  | executed _ _ => if success then 200 else 500
  end.

(** The session the handler creates when the request names none; its
    metadata is [{ auto_created: true }]. *)
Definition auto_session (cfg : Config) (b : Body) : SessionStore.SessionData :=
  {| SessionStore.sd_model := or_else (model b) (defaultModel cfg);
     SessionStore.sd_project_path :=
       or_else (project_path b) (defaultProjectPath cfg);
     SessionStore.sd_metadata := Some [("auto_created", "true")] |}.

Definition set_sessions (ss : list SessionStore.Session)
    (q : TaskQueue.State) : TaskQueue.State :=
  {| TaskQueue.concurrency := TaskQueue.concurrency q;
     TaskQueue.running := TaskQueue.running q;
     TaskQueue.pendingCheckInterval := TaskQueue.pendingCheckInterval q;
     TaskQueue.activeTasks := TaskQueue.activeTasks q;
     TaskQueue.tasks := TaskQueue.tasks q;
     TaskQueue.sessions := ss;
     TaskQueue.has_notifier := TaskQueue.has_notifier q;
     TaskQueue.suspended := TaskQueue.suspended q;
     TaskQueue.notices := TaskQueue.notices q |}.

(** The handler.  [newSessionId] and [newTaskId] are what [generateId]
    returns to the two stores, [now] and [now'] their clocks.  The stores
    are taken not to throw, so the handler's [catch] branches are never
    entered. *)
Definition post_claude (cfg : Config) (w : Wiring)
    (newSessionId newTaskId : string) (now now' : Timestamp) (req : Request)
    (q : TaskQueue.State) : Response * TaskQueue.State :=
  match validation_error req with
  | Some e => (json_error 400 e, q)
  | None =>
      if stream req
      then (json_error 501 "Streaming is not yet implemented", q)
      else
        let b := body req in
        let projectPath := or_else (project_path b) (defaultProjectPath cfg) in
        let '(sessionId, q1) :=
          match WebhookNotifier.truthy (session_id b) with
          | None =>
              if has_sessionManager w
              then (Some newSessionId,
                    set_sessions
                      (SessionStore.create newSessionId now (auto_session cfg b)
                         (TaskQueue.sessions q)).2 q)
              else (session_id b, q)
          | Some _ => (session_id b, q)
          end in
        if isAsync req
        then
          if has_taskQueue w
          then
            let r := TaskQueue.addTask newTaskId now'
                       (task_data b sessionId (defaultProjectPath cfg)
                          (webhook_defaultUrl cfg)) q1 in
            (task_created (TaskStore.id r.1) (TaskStore.status r.1)
               (TaskStore.priority r.1) sessionId
               (webhook_url (TaskStore.metadata r.1)), r.2)
          else
            (json_error 501
               "Async execution is not available (task queue not initialized)",
             q1)
        else (executed sessionId projectPath, q1)
  end.

End ClaudeHandler.

(** * Properties *)

(** ** Records found by id *)

Section Keyed.

Context {A : Type} (key : A → string).

(** Replacing the record found by one of the same key: it is found
    again, at the same place. *)
Lemma find_key_insert k (l : list A) i x x' :
  list_find (λ y, key y = k) l = Some (i, x) →
  key x' = k →
  list_find (λ y, key y = k) (<[i := x']> l) = Some (i, x').
Proof.
  intros (Hi & _ & Hfirst)%list_find_Some Hid.
  apply list_find_Some. split_and!; [|done|].
  - apply list_lookup_insert_eq. by eapply lookup_lt_Some.
  - intros j y Hj Hlt. rewrite list_lookup_insert_ne in Hj by lia.
    by eapply Hfirst.
Qed.

Lemma find_key_insert_other k other (l : list A) i x x' :
  list_find (λ y, key y = k) l = Some (i, x) →
  key x' = k → other ≠ k →
  list_find (λ y, key y = other) (<[i := x']> l)
  = list_find (λ y, key y = other) l.
Proof.
  intros (Hi & Hidt & _)%list_find_Some Hid Hne.
  destruct (list_find (λ y, key y = other) l) as [[j u]|] eqn:E.
  - apply list_find_Some in E as (Hj & Hu & Hfirst).
    assert (i ≠ j) by (intros ->; congruence).
    apply list_find_Some. split_and!; [|done|].
    + by rewrite list_lookup_insert_ne.
    + intros m y Hm Hlt. destruct (decide (i = m)) as [->|].
      * rewrite list_lookup_insert_eq in Hm by (by eapply lookup_lt_Some).
        congruence.
      * rewrite list_lookup_insert_ne in Hm by done. by eapply Hfirst.
  - apply list_find_None. apply list_find_None in E.
    apply Forall_insert; [done|]. congruence.
Qed.

Lemma find_key_None k (l : list A) :
  list_find (λ y, key y = k) l = None ↔ k ∉ key <$> l.
Proof.
  rewrite list_find_None. split.
  - intros Hall (x & -> & Hx)%list_elem_of_fmap.
    apply list_elem_of_lookup in Hx as [i Hi].
    by eapply Forall_lookup_1 in Hall.
  - intros Hnot. apply Forall_lookup. intros i x Hi Hk. apply Hnot.
    rewrite <- Hk. apply list_elem_of_fmap_2.
    apply list_elem_of_lookup. eauto.
Qed.


End Keyed.

(** ** Facts about the task store *)

Module TaskStoreFacts.

Import TaskStore.
Local Abbreviation list := Datatypes.list (only parsing).

Lemma id_assign t u : id (assign t u) = id t.
Proof. by destruct u. Qed.

Lemma id_merge now t updates : id (merge now t updates) = id t.
Proof.
  unfold merge. simpl. revert t.
  induction updates as [|u us IH]; intros t; simpl; [done|].
  by rewrite IH, id_assign.
Qed.

Lemma get_find taskId (tasks : list Task) t :
  get taskId tasks = Some t ↔
  ∃ i, list_find (λ t, id t = taskId) tasks = Some (i, t).
Proof.
  unfold get. split.
  - destruct (list_find _ tasks) as [[i t']|] eqn:E; simpl; [|done].
    intros [= ->]. by exists i.
  - intros [i ->]. done.
Qed.



Lemma get_elem_of taskId (tasks : list Task) t :
  get taskId tasks = Some t → t ∈ tasks.
Proof.
  intros [i Hi]%get_find. apply list_find_Some in Hi.
  apply list_elem_of_lookup. exists i. tauto.
Qed.

Lemma find_insert taskId (tasks : list Task) i t t' :
  list_find (λ t, id t = taskId) tasks = Some (i, t) →
  id t' = taskId →
  list_find (λ t, id t = taskId) (<[i := t']> tasks) = Some (i, t').
Proof. apply (find_key_insert id). Qed.

Lemma find_insert_other taskId other (tasks : list Task) i t t' :
  list_find (λ t, id t = taskId) tasks = Some (i, t) →
  id t' = taskId → other ≠ taskId →
  list_find (λ t, id t = other) (<[i := t']> tasks)
  = list_find (λ t, id t = other) tasks.
Proof. apply (find_key_insert_other id). Qed.

Lemma update_found now taskId updates (tasks : list Task) i t :
  list_find (λ t, id t = taskId) tasks = Some (i, t) →
  update now taskId updates tasks
  = (Some (merge now t updates), <[i := merge now t updates]> tasks).
Proof. intros H. unfold update. by rewrite H. Qed.


Lemma get_update now taskId updates (tasks : list Task) t :
  get taskId tasks = Some t →
  update now taskId updates tasks
  = (Some (merge now t updates), (update now taskId updates tasks).2) ∧
  get taskId (update now taskId updates tasks).2
  = Some (merge now t updates).
Proof.
  intros [i Hi]%get_find. rewrite (update_found _ _ _ _ _ _ Hi). simpl.
  split; [done|]. apply get_find. exists i.
  eapply find_insert; [done|]. rewrite id_merge.
  apply list_find_Some in Hi. tauto.
Qed.

Lemma get_update_other now taskId other updates (tasks : list Task) :
  other ≠ taskId →
  get other (update now taskId updates tasks).2 = get other tasks.
Proof.
  intros Hne. unfold update.
  destruct (list_find _ tasks) as [[i t]|] eqn:E; simpl; [|done].
  unfold get. erewrite find_insert_other; [done..| |done].
  rewrite id_merge. apply list_find_Some in E. tauto.
Qed.

Lemma length_update now taskId updates (tasks : list Task) :
  length (update now taskId updates tasks).2 = length tasks.
Proof.
  unfold update. destruct (list_find _ tasks) as [[i t]|]; simpl; [|done].
  apply length_insert.
Qed.

(** An update touches the first record of the given id and no other. *)
Lemma lookup_update now taskId updates (tasks : list Task) j u :
  tasks !! j = Some u →
  ∃ u', (update now taskId updates tasks).2 !! j = Some u' ∧
        (u' = u ∨ (id u = taskId ∧ u' = merge now u updates)).
Proof.
  intros Hj. unfold update.
  destruct (list_find _ tasks) as [[i t]|] eqn:E; simpl; [|by eauto].
  apply list_find_Some in E as (Hi & Hid & _).
  destruct (decide (i = j)) as [->|Hne].
  - rewrite list_lookup_insert_eq by (by eapply lookup_lt_Some).
    assert (t = u) as -> by congruence. eauto.
  - rewrite list_lookup_insert_ne by done. eauto.
Qed.

(** A property of records that every merge of [updates] keeps is kept by
    the document. *)
Lemma Forall_update (P : Task → Prop) now taskId updates (tasks : list Task) :
  (∀ t, P t → P (merge now t updates)) →
  Forall P tasks → Forall P (update now taskId updates tasks).2.
Proof.
  intros Hm Hall. unfold update.
  destruct (list_find _ tasks) as [[i t]|] eqn:E; simpl; [|done].
  apply Forall_insert; [done|]. apply Hm.
  apply list_find_Some in E as (Hi & _).
  by eapply Forall_lookup_1.
Qed.

End TaskStoreFacts.

(** ** Cancellation *)

Section Cancellation.

Import TaskStore TaskStoreFacts.
Local Abbreviation list := Datatypes.list (only parsing).

Lemma cancel_pending now taskId (tasks : list Task) t :
  get taskId tasks = Some t → status t = pending →
  cancel now taskId tasks
  = update now taskId [set_status cancelled; set_completed_at (Some now)] tasks.
Proof.
  intros Hget Hst. unfold cancel. rewrite Hget.
  rewrite bool_decide_eq_false_2; [done|]. rewrite Hst. tauto.
Qed.

Lemma cancel_refused now taskId (tasks : list Task) t :
  get taskId tasks = Some t → status t ≠ pending → status t ≠ processing →
  cancel now taskId tasks = (None, tasks).
Proof.
  intros Hget H1 H2. unfold cancel. rewrite Hget.
  by rewrite bool_decide_eq_true_2.
Qed.

Lemma tasks_cancelTask now taskId q :
  TaskQueue.tasks (TaskQueue.cancelTask now taskId q).2
  = (cancel now taskId (TaskQueue.tasks q)).2.
Proof.
  unfold TaskQueue.cancelTask.
  destruct (get taskId (TaskQueue.tasks q)) as [t|] eqn:Hget.
  - case_bool_decide as Hst; simpl.
    + destruct Hst. by erewrite cancel_refused.
    + destruct (cancel now taskId (TaskQueue.tasks q)).1; simpl; [|done].
      by destruct (TaskQueue.has_notifier q).
  - unfold cancel. by rewrite Hget.
Qed.

(** C7: for a stored task [t] that is pending, the first [cancel] returns
    and stores the record with status [cancelled] and [completed_at] set,
    [started_at] being left as it was (so null when the task never ran),
    and touches no record of another id; a second [cancel] returns null
    and leaves the document as it is.  [cancelTask] of the queue succeeds
    the first time and refuses the second time without changing anything.
    In general [cancel] on a stored task that is neither pending nor
    processing returns null and changes nothing. *)
Theorem cancel_twice_changes_once (q : TaskQueue.State) (taskId : string)
    (t : Task) (now1 now2 : Timestamp) :
  get taskId (TaskQueue.tasks q) = Some t →
  (status t = pending →
     let t' := merge now1 t [set_status cancelled; set_completed_at (Some now1)] in
     let first := cancel now1 taskId (TaskQueue.tasks q) in
     first.1 = Some t' ∧ get taskId first.2 = Some t' ∧
     status t' = cancelled ∧ completed_at t' = Some now1 ∧
     started_at t' = started_at t ∧
     (started_at t = None → started_at t' = None) ∧
     (∀ other, other ≠ taskId →
               get other first.2 = get other (TaskQueue.tasks q)) ∧
     cancel now2 taskId first.2 = (None, first.2) ∧
     let q1 := TaskQueue.cancelTask now1 taskId q in
     q1.1 = TaskQueue.cancel_ok ∧ TaskQueue.tasks q1.2 = first.2 ∧
     TaskQueue.cancelTask now2 taskId q1.2
     = (TaskQueue.cancel_error "Cannot cancel task with status: cancelled",
        q1.2)) ∧
  (status t ≠ pending → status t ≠ processing →
     cancel now1 taskId (TaskQueue.tasks q) = (None, TaskQueue.tasks q)).
Proof.
  intros Hget. split; [|by apply cancel_refused].
  intros Hst. cbv zeta.
  set (t' := merge now1 t [set_status cancelled; set_completed_at (Some now1)]).
  pose proof (cancel_pending now1 _ _ _ Hget Hst) as Hc.
  destruct (get_update now1 taskId
              [set_status cancelled; set_completed_at (Some now1)] _ _ Hget)
    as [Hu Hg].
  rewrite <- Hc in Hu, Hg. fold t' in Hu, Hg.
  assert (Hsecond : cancel now2 taskId (cancel now1 taskId (TaskQueue.tasks q)).2
                    = (None, (cancel now1 taskId (TaskQueue.tasks q)).2))
    by (by eapply cancel_refused).
  split_and!; try done.
  - by rewrite Hu.
  - intros other Hne. rewrite Hc. by apply get_update_other.
  - unfold TaskQueue.cancelTask. rewrite Hget.
    rewrite bool_decide_eq_false_2 by (rewrite Hst; tauto).
    simpl. rewrite Hu. simpl. done.
  - apply tasks_cancelTask.
  - pose proof (tasks_cancelTask now1 taskId q) as Ht.
    unfold TaskQueue.cancelTask at 1. rewrite Ht, Hg.
    by rewrite bool_decide_eq_true_2.
Qed.

End Cancellation.

(** ** Facts about the queue *)

Module TaskQueueFacts.

Import TaskStore TaskStoreFacts TaskQueue.
Local Abbreviation list := Datatypes.list (only parsing).
Local Abbreviation delete := base.delete (only parsing).

(** Splits the conditionals of a piece of the queue and closes the
    branches that hold by computation. *)
Ltac frame :=
  repeat first
    [ reflexivity
    | match goal with
      | |- context [if negb ?b then _ else _] => destruct b; simpl
      | |- context [if bool_decide ?P then _ else _] =>
          destruct (bool_decide P); simpl
      | |- context [if ?b then _ else _] => destruct b; simpl
      | |- context [match ?x with _ => _ end] => destruct x; simpl
      end ].

Lemma sessions_processQueue q : sessions (processQueue q) = sessions q.
Proof. unfold processQueue. frame. Qed.

Lemma tasks_processQueue q : tasks (processQueue q) = tasks q.
Proof. unfold processQueue. frame. Qed.

Lemma sessions_send_webhook task a b q :
  sessions (send_webhook task a b q) = sessions q.
Proof. unfold send_webhook. frame. Qed.

Lemma tasks_send_webhook task a b q :
  tasks (send_webhook task a b q) = tasks q.
Proof. unfold send_webhook. frame. Qed.

Lemma sessions_cancelTask now taskId q :
  sessions (cancelTask now taskId q).2 = sessions q.
Proof. unfold cancelTask. frame. Qed.

(** The event loop never writes the session store. *)
Lemma sessions_step q e : sessions (step q e) = sessions q.
Proof.
  destruct e; simpl.
  - destruct (pendingCheckInterval q); [apply sessions_processQueue|done].
  - done.
  - apply sessions_cancelTask.
  - destruct (suspended q !! k) as [[]|]; try done.
    by rewrite sessions_processQueue.
  - destruct (suspended q !! k) as [[]|]; try done.
    unfold processQueue_next. frame.
  - destruct (suspended q !! k) as [[]|]; try done.
    unfold processQueue_marked. frame.
  - destruct (suspended q !! k) as [[]|]; try done.
    unfold executeTask_executed, executeTask_finally. simpl.
    destruct r; by rewrite sessions_send_webhook.
  - destruct (suspended q !! k) as [[| |task [|]| | |]|]; try done.
    unfold executeTask_timeout.
    by rewrite sessions_processQueue, sessions_send_webhook.
  - unfold stop, stop_loop. frame.
  - destruct (suspended q !! k) as [[]|]; try done. unfold stop_loop. frame.
  - destruct (suspended q !! k) as [[]|]; try done.
    unfold stop_deadline_fired. frame.
Qed.

Lemma sessions_run events q : sessions (run events q) = sessions q.
Proof.
  unfold run. revert q.
  induction events as [|e es IH]; intros q; simpl; [done|].
  by rewrite IH, sessions_step.
Qed.

Lemma tasks_executed now r task q :
  tasks (executeTask_executed now r task q)
  = match r with
    | exec_success res _ cost _ =>
        (markCompleted now (id task) res cost (tasks q)).2
    | exec_failure err _ => (markFailed now (id task) err (tasks q)).2
    | exec_throw message =>
        (markFailed now (id task) (Some message) (tasks q)).2
    end.
Proof.
  unfold executeTask_executed, executeTask_finally. simpl.
  destruct r; by rewrite tasks_send_webhook.
Qed.

(** A turn of the event loop makes at most one call on the task store. *)
Lemma tasks_step q e : ∃ c, tasks (step q e) = store_call c (tasks q).
Proof.
  destruct e; simpl.
  - exists call_none.
    destruct (pendingCheckInterval q); [apply tasks_processQueue|done].
  - by exists (call_create newId now taskData).
  - exists (call_cancel now taskId). apply tasks_cancelTask.
  - exists call_none. destruct (suspended q !! k) as [[]|]; try done.
    by rewrite tasks_processQueue.
  - exists call_none. destruct (suspended q !! k) as [[]|]; try done.
    unfold processQueue_next. simpl. frame.
  - destruct (suspended q !! k) as [[]|]; try by exists call_none.
    destruct ok; [|by exists call_none].
    by exists (call_markProcessing now (id task)).
  - destruct (suspended q !! k) as [[]|]; try by exists call_none.
    rewrite tasks_executed. simpl. destruct r.
    + by exists (call_markCompleted now (id task) res cost).
    + by exists (call_markFailed now (id task) err).
    + by exists (call_markFailed now (id task) (Some message)).
  - destruct (suspended q !! k) as [[| |task [|]| | |]|];
      try by exists call_none.
    exists (call_markFailed now (id task) (Some "Task execution timeout")).
    unfold executeTask_timeout.
    by rewrite tasks_processQueue, tasks_send_webhook.
  - exists call_none. unfold stop, stop_loop. simpl. frame.
  - exists call_none. destruct (suspended q !! k) as [[]|]; try done.
    unfold stop_loop. simpl. frame.
  - exists call_none. destruct (suspended q !! k) as [[]|]; try done.
    unfold stop_deadline_fired. simpl. frame.
Qed.

(** A property of records kept by every call of the store is kept by the
    document. *)
Lemma Forall_store_call (P : Task → Prop) c (ts : list Task) :
  (∀ now t updates,
      Forall (λ u, ∀ s, u ≠ set_session_id s) updates →
      P t → P (merge now t updates)) →
  (∀ newId now d, P (create newId now d ts).1) →
  Forall P ts → Forall P (store_call c ts).
Proof.
  intros Hm Hc Hall.
  assert (Hup : ∀ now taskId updates,
             Forall (λ u, ∀ s, u ≠ set_session_id s) updates →
             Forall P (update now taskId updates ts).2).
  { intros. apply Forall_update; [|done]. intros. by apply Hm. }
  destruct c; simpl.
  - done.
  - apply Forall_app. split; [done|]. apply Forall_singleton. apply Hc.
  - apply Hup. by repeat constructor.
  - unfold markCompleted. destruct (get taskId ts); [|done].
    apply Hup. by repeat constructor.
  - unfold markFailed. destruct (get taskId ts); [|done].
    apply Hup. by repeat constructor.
  - unfold cancel. destruct (get taskId ts); [|done].
    case_bool_decide; [done|]. apply Hup. by repeat constructor.
Qed.

End TaskQueueFacts.

(** ** Terminal states and late results *)

Section TerminalStates.

Import TaskStore TaskStoreFacts TaskQueue Scenario.
Local Abbreviation list := Datatypes.list (only parsing).

(** [markCompleted] and [markFailed] write the record found whatever its
    status: unlike [cancel], neither looks at [task.status]. *)
Lemma markCompleted_unguarded now taskId res cost (ts : list Task) t :
  get taskId ts = Some t →
  status <$> get taskId (markCompleted now taskId res cost ts).2
  = Some completed.
Proof.
  intros Hget. unfold markCompleted. rewrite Hget.
  destruct (get_update now taskId
              [set_status completed; set_completed_at (Some now);
               set_result res; set_cost_usd (default 0%Qc cost);
               set_duration_ms (duration_since now t)] _ _ Hget) as [_ ->].
  done.
Qed.

Lemma markFailed_unguarded now taskId err (ts : list Task) t :
  get taskId ts = Some t →
  status <$> get taskId (markFailed now taskId err ts).2 = Some failed.
Proof.
  intros Hget. unfold markFailed. rewrite Hget.
  destruct (get_update now taskId
              [set_status failed; set_completed_at (Some now);
               set_error err; set_duration_ms (duration_since now t)]
              _ _ Hget) as [_ ->].
  done.
Qed.

(** C1, evaluated on the code: task [t1] is being executed.  Cancelled,
    it is [cancelled]; the executor's answer then makes it [completed].
    Timed out, it is [failed]; the executor's answer then makes it
    [completed].  A terminal status is left in both runs. *)
Theorem late_result_overwrites_terminal_status :
  terminal cancelled = true ∧ terminal failed = true ∧
  status <$> get "t1" (tasks t1_executing) = Some processing ∧
  status <$> get "t1" (tasks (run [ev_cancelTask 30 "t1"] t1_executing))
    = Some cancelled ∧
  status <$> get "t1" (tasks (run late_after_cancel t1_executing))
    = Some completed ∧
  status <$> get "t1" (tasks (run [ev_timeout 0 300021] t1_executing))
    = Some failed ∧
  status <$> get "t1" (tasks (run late_after_timeout t1_executing))
    = Some completed.
Proof. split_and!; vm_compute; reflexivity. Qed.

End TerminalStates.

(** ** Admission *)

Section Admission.

Import TaskStore TaskQueue Scenario.
Local Abbreviation list := Datatypes.list (only parsing).

(** C3, evaluated on the code: with [concurrency] 1, two dispatches both
    pass the size test before either reserves a slot, since the test and
    the reservation are separated by [await getNextPending()].  When the
    store answers the second one after the first has marked its task, the
    second is handed the next pending task, and the active set holds two
    tasks. *)
Theorem overlapping_dispatches_oversubscribe :
  let q := run overlapping_dispatches (server 1 []) in
  concurrency q = 1%nat ∧
  size (activeTasks q) = 2%nat ∧
  (concurrency q < size (activeTasks q))%nat ∧
  (id ∘ entry_task) <$> activeTasks q !! "t1" = Some "t1" ∧
  (id ∘ entry_task) <$> activeTasks q !! "t2" = Some "t2".
Proof. split_and!; vm_compute; first [reflexivity | lia]. Qed.

End Admission.

(** ** Shutdown *)

Section Shutdown.

Import TaskStore TaskQueue Scenario.
Local Abbreviation list := Datatypes.list (only parsing).

Lemma run_app events1 events2 q :
  run (events1 ++ events2) q = run events2 (run events1 q).
Proof. unfold run. apply foldl_app. Qed.

(** An event that leaves a state as it is can be repeated at will. *)
Lemma run_idle e n q : step q e = q → run (replicate n e) q = q.
Proof.
  intros Hidle. unfold run.
  induction n as [|n IH]; simpl; [done|]. by rewrite Hidle.
Qed.

(** C5, evaluated on the code: [stop] is called while task [t1] is being
    executed.  The queue stops running and its poll timer is cancelled.
    Each wake-up of the waiting loop, 100 ms after the last, finds the
    task active and sleeps again; after 100 of them the 10 s timer fires
    and writes its warning to the log, and nothing else; and however many
    wake-ups follow, [stop] has not returned.  It returns at the first
    wake-up after the executor has answered. *)
Theorem stop_outlasts_its_deadline :
  let q := step t1_executing ev_stop in
  running q = false ∧ pendingCheckInterval q = false ∧
  size (activeTasks q) = 1%nat ∧ stop_waiting q = true ∧
  (∀ n, let q' := run (stop_past_deadline n) t1_executing in
        stop_waiting q' = true ∧
        notices q' = [logged "Forcing shutdown with active tasks"]) ∧
  (let q' := run stop_after_answer t1_executing in
   stop_waiting q' = false ∧
   last (notices q') = Some (logged "Task queue stopped")).
Proof.
  cbv zeta. split_and!; try (vm_compute; reflexivity).
  intros n. unfold stop_past_deadline.
  rewrite !run_app.
  rewrite (run_idle (ev_stop_wake 2) 100) by (vm_compute; reflexivity).
  rewrite (run_idle (ev_stop_wake 1) n) by (vm_compute; reflexivity).
  split; vm_compute; reflexivity.
Qed.

End Shutdown.

(** ** Session accounting *)

Section SessionAccounting.

Import TaskStore TaskStoreFacts TaskQueue TaskQueueFacts Scenario.
Local Abbreviation list := Datatypes.list (only parsing).

(** C2 as stated fails on the code: three tasks bound to session [S]
    each succeed at a cost of 0.01 and are stored as completed with that
    cost, and the session still has cost 0 and no message. *)
Lemma three_successes_session_unchanged :
  let q := run three_successes (server 3 session_S) in
  (λ t, (id t, status t, cost_usd t, meta_session_id (metadata t)))
    <$> tasks q
  = [("t1", completed, one_cent, Some "S");
     ("t2", completed, one_cent, Some "S");
     ("t3", completed, one_cent, Some "S")] ∧
  ∃ s, SessionStore.get "S" (sessions q) = Some s ∧
       SessionStore.total_cost_usd s = 0%Qc ∧
       SessionStore.messages_count s = 0 ∧
       ¬ (SessionStore.total_cost_usd s = Q2Qc (3 # 100) ∧
          SessionStore.messages_count s = 3).
Proof.
  split; [vm_compute; reflexivity|].
  eexists. split; [vm_compute; reflexivity|].
  split_and!; [done|done|]. intros [_ H]. discriminate H.
Qed.

(** C2, amended: when the executor's answer to a task is a success, the
    record stored under the task's id becomes [completed], with the
    result, the cost (0 when the answer has none), [completed_at] and the
    duration since [started_at]; the session store is not written, by
    this or by any other turn of the event loop. *)
Theorem success_marks_task_completed (q : State) (k : nat) (now : Timestamp)
    (task t : Task) (timer : bool) (res : option string) (duration : Z)
    (cost : option Qc) (sid : option string) :
  suspended q !! k = Some (await_execute task timer) →
  get (id task) (tasks q) = Some t →
  let q' := step q (ev_executed k now (exec_success res duration cost sid)) in
  get (id task) (tasks q')
  = Some (merge now t
            [set_status completed; set_completed_at (Some now);
             set_result res; set_cost_usd (default 0%Qc cost);
             set_duration_ms (duration_since now t)]) ∧
  sessions q' = sessions q ∧
  ∀ events, sessions (run events q) = sessions q.
Proof.
  intros Hk Hget. cbv zeta. split_and!.
  - simpl. rewrite Hk, tasks_executed. simpl.
    unfold markCompleted. rewrite Hget.
    by destruct (get_update now (id task)
                   [set_status completed; set_completed_at (Some now);
                    set_result res; set_cost_usd (default 0%Qc cost);
                    set_duration_ms (duration_since now t)] _ _ Hget)
      as [_ ->].
  - apply sessions_step.
  - intros events. apply sessions_run.
Qed.

Lemma success_marks_task_completed_witness :
  (status <$> get "t1"
     (tasks (step t1_executing (ev_executed 0 40 success)))) = Some completed ∧
  sessions (step t1_executing (ev_executed 0 40 success))
  = sessions t1_executing.
Proof.
  assert (Hget : ∃ t, get "t1" (tasks t1_executing) = Some t)
    by (eexists; vm_compute; reflexivity).
  destruct Hget as [t Hget].
  assert (Hk : ∃ task timer,
             suspended t1_executing !! 0%nat = Some (await_execute task timer)
             ∧ id task = "t1")
    by (do 2 eexists; split; vm_compute; reflexivity).
  destruct Hk as (task & timer & Hk & Hid). rewrite <- Hid in Hget.
  destruct (success_marks_task_completed t1_executing 0 40 task t timer
              (Some "done") 50 (Some one_cent) None Hk Hget) as (H1 & H2 & _).
  unfold success. rewrite <- Hid. rewrite H1. split; [reflexivity|exact H2].
Defined.

End SessionAccounting.

(** ** The session of a task *)

Section TaskSession.

Import TaskStore TaskStoreFacts TaskQueue TaskQueueFacts Scenario.
Local Abbreviation list := Datatypes.list (only parsing).

Lemma session_id_merge now t updates :
  Forall (λ u, ∀ s, u ≠ set_session_id s) updates →
  session_id (merge now t updates) = session_id t.
Proof.
  unfold merge. simpl. intros Hall. revert t.
  induction Hall as [|u us Hu _ IH]; intros t; simpl; [done|].
  rewrite IH. destruct u; try done. by destruct (Hu s).
Qed.

Lemma session_id_step q e :
  Forall (λ t, session_id t = None) (tasks q) →
  Forall (λ t, session_id t = None) (tasks (step q e)).
Proof.
  intros Hall. destruct (tasks_step q e) as [c ->].
  apply Forall_store_call; [|done..].
  intros now t updates Hno Ht. by rewrite session_id_merge.
Qed.

(** C10: [create] stores a record whose [session_id] is null whatever
    the caller supplies, [td_session_id] included; the task the HTTP
    layer submits for a request of session [sessionId] carries that
    session in [metadata.session_id] only; and no turn of the event loop
    writes [session_id]: if it is null on every stored task, it is so
    after any run. *)
Theorem task_session_id_stays_null (q : State) (events : list Event) :
  Forall (λ t, session_id t = None) (tasks q) →
  (∀ newId now taskData,
      let r := create newId now taskData (tasks q) in
      session_id r.1 = None ∧ r.2 = tasks q ++ [r.1]) ∧
  (∀ body sessionId defaultProjectPath defaultUrl newId now,
      let t := (addTask newId now
                  (ClaudeRoutes.task_data body sessionId defaultProjectPath
                     defaultUrl) q).1 in
      session_id t = None ∧ meta_session_id (metadata t) = sessionId) ∧
  Forall (λ t, session_id t = None) (tasks (run events q)).
Proof.
  intros Hall. split_and!; [done|done|].
  unfold run. revert q Hall.
  induction events as [|e es IH]; intros q Hall; simpl; [done|].
  apply IH. by apply session_id_step.
Qed.

Lemma task_session_id_stays_null_witness :
  Forall (λ t, session_id t = None)
    (tasks (run three_successes (server 3 session_S))).
Proof.
  apply (task_session_id_stays_null (server 3 session_S) three_successes).
  vm_compute. constructor.
Defined.

End TaskSession.

(** ** Sorting *)

Section Sorting.

Context {A : Type} (cmp : A → A → Z).

Lemma sort_insert_perm x (l : list A) : sort_insert cmp x l ≡ₚ x :: l.
Proof.
  induction l as [|y l IH]; simpl; [done|].
  case_bool_decide; [done|]. rewrite IH. apply Permutation_swap.
Qed.

Lemma array_sort_perm (l : list A) : array_sort cmp l ≡ₚ l.
Proof.
  induction l as [|x l IH]; simpl; [done|].
  by rewrite sort_insert_perm, IH.
Qed.

(** Stability: the records of a class whose members compare as equal or
    in order keep their relative order. *)
Lemma sort_insert_filter (Q : A → Prop) `{!∀ x, Decision (Q x)} x (l : list A) :
  (∀ a b, Q a → Q b → cmp a b ≤ 0) →
  filter Q (sort_insert cmp x l) = filter Q (x :: l).
Proof.
  intros HQ. induction l as [|y l IH]; simpl; [done|].
  case_bool_decide as Hxy; [done|].
  rewrite filter_cons, IH, !filter_cons.
  destruct (decide (Q y)) as [Hy|Hy], (decide (Q x)) as [Hx|Hx]; try done.
  destruct Hxy. by apply HQ.
Qed.

Lemma array_sort_filter (Q : A → Prop) `{!∀ x, Decision (Q x)} (l : list A) :
  (∀ a b, Q a → Q b → cmp a b ≤ 0) →
  filter Q (array_sort cmp l) = filter Q l.
Proof.
  intros HQ. induction l as [|x l IH]; simpl; [done|].
  rewrite sort_insert_filter by done. by rewrite !filter_cons, IH.
Qed.

Hypothesis cmp_total : ∀ a b, cmp a b ≤ 0 ∨ cmp b a ≤ 0.
Hypothesis cmp_trans : ∀ a b c, cmp a b ≤ 0 → cmp b c ≤ 0 → cmp a c ≤ 0.

Lemma sort_insert_sorted x (l : list A) :
  StronglySorted (λ a b, cmp a b ≤ 0) l →
  StronglySorted (λ a b, cmp a b ≤ 0) (sort_insert cmp x l).
Proof.
  induction l as [|y l IH]; simpl; intros Hs.
  - by repeat constructor.
  - apply StronglySorted_cons in Hs as [Hy Hl].
    case_bool_decide as Hxy.
    + apply StronglySorted_cons. split.
      * constructor; [done|].
        eapply Forall_impl; [exact Hy|]. intros z Hz. by eapply cmp_trans.
      * by apply StronglySorted_cons.
    + apply StronglySorted_cons. split; [|by apply IH].
      rewrite sort_insert_perm. constructor; [|done].
      by destruct (cmp_total x y).
Qed.

Lemma array_sort_sorted (l : list A) :
  StronglySorted (λ a b, cmp a b ≤ 0) (array_sort cmp l).
Proof.
  induction l as [|x l IH]; simpl; [constructor|].
  by apply sort_insert_sorted.
Qed.

End Sorting.

(** ** The order of [getNextPending] and [list] *)

Section DrawingOrder.

Import TaskStore TaskStoreFacts Ordering Scenario.
Local Abbreviation list := Datatypes.list (only parsing).

Lemma compare_le a b : compare a b ≤ 0 ↔ before a b ∨ tied a b.
Proof. unfold compare, before, tied. case_bool_decide; lia. Qed.

Lemma compare_total a b : compare a b ≤ 0 ∨ compare b a ≤ 0.
Proof. unfold compare. repeat case_bool_decide; lia. Qed.

Lemma compare_trans a b c :
  compare a b ≤ 0 → compare b c ≤ 0 → compare a c ≤ 0.
Proof. unfold compare. repeat case_bool_decide; lia. Qed.

Lemma compare_tied t a b : tied t a → tied t b → compare a b ≤ 0.
Proof. unfold compare, tied. case_bool_decide; lia. Qed.

Lemma getNextPending_Some (tasks : list Task) t :
  getNextPending tasks = Some t → first_with_storage_ties tasks t.
Proof.
  unfold getNextPending.
  set (l := filter (λ t, status t = pending) tasks).
  destruct (array_sort compare l) as [|t' rest] eqn:Hsort; [done|].
  intros [= ->].
  assert (Hperm : t :: rest ≡ₚ l) by (rewrite <- Hsort; apply array_sort_perm).
  assert (Hsorted : Forall (λ u, compare t u ≤ 0) rest).
  { pose proof (array_sort_sorted compare compare_total compare_trans l) as Hs.
    rewrite Hsort in Hs. by apply StronglySorted_cons in Hs as [? _]. }
  assert (Htt : tied t t) by done.
  assert (Hhead : head (filter (λ u, tied t u ∧ status u = pending) tasks)
                  = Some t).
  { rewrite <- list_filter_filter. fold l.
    rewrite <- (array_sort_filter compare (tied t) l (compare_tied t)).
    rewrite Hsort, filter_cons. by rewrite decide_True. }
  apply head_filter_Some in Hhead as (l1 & l2 & Htasks & Hl1).
  assert (Hpending : status t = pending).
  { assert (t ∈ l) as Hin by (rewrite <- Hperm; by left).
    apply list_elem_of_filter in Hin. tauto. }
  exists (length l1). split_and!; [|done|].
  - rewrite Htasks. by rewrite list_lookup_middle.
  - intros j u Hj Hu.
    assert (u ∈ t :: rest) as Hin.
    { rewrite Hperm. apply list_elem_of_filter. split; [done|].
      apply list_elem_of_lookup. eauto. }
    assert (compare t u ≤ 0) as Hle.
    { apply elem_of_cons in Hin as [->|Hin].
      - by apply compare_tied with t.
      - apply list_elem_of_lookup in Hin as [k Hk].
        exact (Forall_lookup_1 _ _ _ _ Hsorted Hk). }
    apply compare_le in Hle as [?|Htied]; [by left|right].
    split; [done|]. destruct (decide (length l1 ≤ j)%nat); [done|].
    exfalso. rewrite Htasks, lookup_app_l in Hj by lia.
    eapply Forall_lookup_1 in Hl1; [|done]. by apply Hl1.
Qed.

Lemma getNextPending_None (tasks : list Task) :
  getNextPending tasks = None → Forall (λ u, status u ≠ pending) tasks.
Proof.
  unfold getNextPending. intros Hhead.
  apply Forall_lookup. intros i u Hi Hu.
  assert (u ∈ array_sort compare (filter (λ t, status t = pending) tasks)).
  { rewrite array_sort_perm. apply list_elem_of_filter. split; [done|].
    apply list_elem_of_lookup. eauto. }
  destruct (array_sort compare _); [by apply elem_of_nil in H|done].
Qed.

(** C6 as stated fails on the code: of three pending tasks of one
    priority and one creation time, stored in the order b, a, c,
    [getNextPending] returns b, the one stored first, which is first by id
    neither in ascending nor in descending order. *)
Lemma equal_tasks_drawn_in_storage_order :
  getNextPending tied_tasks = Some (stored "b" 5 1000) ∧
  id <$> TaskStore.list {| opt_status := Some pending; opt_limit := None |}
           tied_tasks = ["b"; "a"; "c"] ∧
  ¬ first_with_id_ties String.leb tied_tasks (stored "b" 5 1000) ∧
  ¬ first_with_id_ties (λ x y, String.leb y x) tied_tasks (stored "b" 5 1000).
Proof.
  split_and!; [vm_compute; reflexivity..| |].
  - intros (_ & _ & H).
    destruct (H (stored "a" 5 1000)) as [[Hb|[_ Hb]]|[_ Hid]];
      [by apply list_elem_of_In; vm_compute; tauto|done|..];
      vm_compute in Hb || vm_compute in Hid; done.
  - intros (_ & _ & H).
    destruct (H (stored "c" 5 1000)) as [[Hb|[_ Hb]]|[_ Hid]];
      [by apply list_elem_of_In; vm_compute; tauto|done|..];
      vm_compute in Hb || vm_compute in Hid; done.
Qed.

(** C6, amended: [getNextPending] returns the pending task that is first
    by priority (higher first), then by creation time (earlier first),
    ties going to the task stored first, and null when no task is
    pending; it is the head of [list({status: 'pending'})].  [list]
    returns the matching tasks sorted by priority descending, then
    creation time ascending, tasks equal in both staying in storage
    order, cut to the limit when one is given. *)
Theorem tasks_drawn_by_priority_age_then_storage (tasks : list Task) :
  match getNextPending tasks with
  | Some t => first_with_storage_ties tasks t
  | None => Forall (λ u, status u ≠ pending) tasks
  end ∧
  getNextPending tasks
  = head (TaskStore.list {| opt_status := Some pending; opt_limit := None |}
            tasks) ∧
  ∀ options,
    let matching :=
      match opt_status options with
      | Some s => filter (λ t, status t = s) tasks
      | None => tasks
      end in
    ∃ sorted,
      TaskStore.list options tasks = limited (opt_limit options) sorted ∧
      sorted ≡ₚ matching ∧
      StronglySorted (λ a b, before a b ∨ tied a b) sorted ∧
      ∀ p c, filter (λ t, priority t = p ∧ created_at t = c) sorted
             = filter (λ t, priority t = p ∧ created_at t = c) matching.
Proof.
  split_and!.
  - destruct (getNextPending tasks) as [t|] eqn:E.
    + by apply getNextPending_Some.
    + by apply getNextPending_None.
  - done.
  - intros options matching.
    exists (array_sort compare matching). split_and!.
    + done.
    + apply array_sort_perm.
    + pose proof (array_sort_sorted compare compare_total compare_trans
                    matching) as Hs.
      induction Hs as [|a l _ IH Ha]; constructor; [done|].
      eapply Forall_impl; [exact Ha|]. intros b. apply compare_le.
    + intros p c. apply array_sort_filter.
      intros a b [? ?] [? ?]. unfold compare. case_bool_decide; lia.
Qed.

End DrawingOrder.

(** ** Recovery at start *)

Section Recovery.

Import TaskStore TaskStoreFacts TaskQueue TaskQueueFacts Scenario.
Local Abbreviation list := Datatypes.list (only parsing).

Lemma ids_update now taskId updates (tasks : list Task) :
  id <$> (update now taskId updates tasks).2 = id <$> tasks.
Proof.
  unfold update. destruct (list_find _ tasks) as [[i t]|] eqn:E; simpl; [|done].
  apply list_find_Some in E as (Hi & _).
  rewrite list_fmap_insert, id_merge. apply list_insert_id.
  by rewrite list_lookup_fmap, Hi.
Qed.

Lemma unique_ids (tasks : list Task) i j a b :
  NoDup (id <$> tasks) →
  tasks !! i = Some a → tasks !! j = Some b → id a = id b → i = j.
Proof.
  intros Hnd Hi Hj Hid. eapply NoDup_lookup; [exact Hnd| |].
  - by rewrite list_lookup_fmap, Hi.
  - rewrite list_lookup_fmap, Hj. simpl. by rewrite Hid.
Qed.

(** With unique ids an update writes every record of the given id. *)
Lemma lookup_update_unique now taskId updates (tasks : list Task) j u :
  NoDup (id <$> tasks) → tasks !! j = Some u →
  (update now taskId updates tasks).2 !! j
  = Some (if decide (id u = taskId) then merge now u updates else u).
Proof.
  intros Hnd Hj. unfold update.
  destruct (list_find _ tasks) as [[i t]|] eqn:E; simpl.
  - apply list_find_Some in E as (Hi & Hid & _).
    destruct (decide (id u = taskId)) as [Hu|Hu].
    + assert (i = j) as -> by (eapply unique_ids; [done..|congruence]).
      rewrite list_lookup_insert_eq by (by eapply lookup_lt_Some).
      congruence.
    + rewrite list_lookup_insert_ne; [done|]. intros ->. congruence.
  - apply list_find_None in E.
    rewrite decide_False; [done|]. by eapply Forall_lookup_1 in E.
Qed.

Lemma reset_twice n1 n2 u :
  merge n2 (merge n1 u [set_status pending]) [set_status pending]
  = merge n2 u [set_status pending].
Proof. done. Qed.

Lemma length_reset_each clock (queue : list Task) k (tasks : list Task) :
  length (reset_each clock k queue tasks) = length tasks.
Proof.
  revert k tasks. induction queue as [|a queue IH]; intros k tasks; simpl; [done|].
  by rewrite IH, length_update.
Qed.

Lemma lookup_reset_each clock (queue : list Task) k (tasks : list Task) j u :
  NoDup (id <$> tasks) → tasks !! j = Some u →
  ∃ u', reset_each clock k queue tasks !! j = Some u' ∧
        if decide (id u ∈ id <$> queue)
        then ∃ now, u' = merge now u [set_status pending]
        else u' = u.
Proof.
  revert k tasks u.
  induction queue as [|a queue IH]; intros k tasks u Hnd Hj;
    cbn [reset_each].
  { exists u. split; [done|]. rewrite fmap_nil.
    rewrite decide_False; [done|]. apply not_elem_of_nil. }
  rewrite fmap_cons.
  pose proof (lookup_update_unique (clock k) (id a) [set_status pending]
                tasks j u Hnd Hj) as Hj1.
  destruct (IH (S k) _ _ ltac:(by rewrite ids_update) Hj1) as (u' & Hu' & Hcase).
  exists u'. split; [done|].
  destruct (decide (id u = id a)) as [Ha|Ha].
  - rewrite decide_True by (rewrite Ha; by left).
    rewrite id_merge in Hcase. case_decide.
    + destruct Hcase as [now ->]. exists now. apply reset_twice.
    + subst u'. by eexists.
  - case_decide as Hq.
    + rewrite decide_True by (by right). done.
    + rewrite decide_False; [done|].
      intros [?|?]%elem_of_cons; done.
Qed.

Lemma tasks_start clock q :
  running q = false →
  tasks (start clock q)
  = reset_each clock 0
      (TaskStore.list {| opt_status := Some processing; opt_limit := None |}
         (tasks q)) (tasks q).
Proof.
  intros Hr. unfold start. rewrite Hr. simpl.
  by rewrite tasks_processQueue.
Qed.

(** With unique ids, the tasks [restorePendingTasks] visits are those
    stored as processing. *)
Lemma visited_iff_processing (tasks : list Task) j u :
  NoDup (id <$> tasks) → tasks !! j = Some u →
  id u ∈ id <$> TaskStore.list
                  {| opt_status := Some processing; opt_limit := None |} tasks
  ↔ status u = processing.
Proof.
  intros Hnd Hj. unfold TaskStore.list. simpl. split.
  - intros (v & Hid & Hv)%list_elem_of_fmap.
    rewrite array_sort_perm in Hv.
    apply list_elem_of_filter in Hv as [Hst Hin].
    apply list_elem_of_lookup in Hin as [i Hi].
    assert (i = j) as -> by (eapply unique_ids; [done..|congruence]).
    congruence.
  - intros Hst. apply list_elem_of_fmap_2.
    rewrite array_sort_perm. apply list_elem_of_filter. split; [done|].
    apply list_elem_of_lookup. eauto.
Qed.

(** C4: [start] on a queue that is not running, over a store whose ids
    are unique, leaves every record in its place; a record stored as
    [processing] becomes [pending], keeping its priority, [created_at]
    and [started_at] (only [status] and [updated_at] are written); every
    other record is unchanged; and when [start] returns no stored task is
    [processing]. *)
Theorem start_resets_processing (clock : nat → Timestamp) (q : State) :
  running q = false →
  NoDup (id <$> tasks q) →
  let q' := start clock q in
  running q' = true ∧
  length (tasks q') = length (tasks q) ∧
  (∀ j u, tasks q !! j = Some u →
     ∃ u', tasks q' !! j = Some u' ∧
           if decide (status u = processing)
           then (∃ now, u' = merge now u [set_status pending]) ∧
                status u' = pending ∧ id u' = id u ∧
                priority u' = priority u ∧ created_at u' = created_at u ∧
                started_at u' = started_at u
           else u' = u) ∧
  Forall (λ u, status u ≠ processing) (tasks q').
Proof.
  intros Hr Hnd. cbv zeta.
  assert (Hpoint : ∀ j u, tasks q !! j = Some u →
     ∃ u', tasks (start clock q) !! j = Some u' ∧
           if decide (status u = processing)
           then (∃ now, u' = merge now u [set_status pending]) ∧
                status u' = pending ∧ id u' = id u ∧
                priority u' = priority u ∧ created_at u' = created_at u ∧
                started_at u' = started_at u
           else u' = u).
  { intros j u Hj. rewrite tasks_start by done.
    destruct (lookup_reset_each clock
                (TaskStore.list
                   {| opt_status := Some processing; opt_limit := None |}
                   (tasks q)) 0 _ j u Hnd Hj) as (u' & Hu' & Hcase).
    exists u'. split; [done|].
    pose proof (visited_iff_processing _ j u Hnd Hj) as Hiff.
    destruct (decide (status u = processing)) as [Hst|Hst].
    - rewrite decide_True in Hcase by (by apply Hiff).
      destruct Hcase as [now ->]. split; [by eexists|done].
    - rewrite decide_False in Hcase by (by rewrite Hiff). done. }
  assert (Hlen : length (tasks (start clock q)) = length (tasks q))
    by (rewrite tasks_start by done; apply length_reset_each).
  split_and!; [|done|done|].
  - unfold start. by rewrite Hr.
  - apply Forall_lookup. intros j u' Hj'.
    destruct (tasks q !! j) as [u|] eqn:Hj.
    + destruct (Hpoint j u Hj) as (u'' & Hu'' & Hcase).
      assert (u'' = u') as -> by congruence.
      case_decide as Hst; [|by subst].
      destruct Hcase as (_ & -> & _). done.
    + apply lookup_ge_None in Hj. apply lookup_lt_Some in Hj'. lia.
Qed.

End Recovery.

(** ** Webhook delivery *)

Section WebhookDelivery.

Import WebhookNotifier Delivery.

Lemma axios_post_2xx r :
  axios_post r
  = match r with
    | http_status code =>
        if is_2xx r then resolved code else rejected (failure_message r)
    | network_error m => rejected m
    end.
Proof.
  destruct r as [code|m]; simpl; [|done].
  repeat case_bool_decide; done || lia.
Qed.

Lemma axios_post_failure r :
  is_2xx r = false → axios_post r = rejected (failure_message r).
Proof. intros H. rewrite axios_post_2xx. destruct r; by rewrite ?H. Qed.

(** Whatever the posts do, the loop posts at most once per iteration. *)
Lemma posts_attempts outcome M remaining attempt lastError :
  (length (posts (attempts outcome M remaining attempt lastError).2)
   ≤ remaining)%nat.
Proof.
  revert attempt lastError.
  induction remaining as [|rem IH]; intros a lastError; simpl; [done|].
  destruct (outcome a) as [st|message]; simpl.
  - case_bool_decide; simpl; [lia|].
    specialize (IH (a + 1) (Some ("Unexpected status code: " +:+ pretty st))).
    lia.
  - specialize (IH (a + 1) (Some message)).
    unfold posts in *. rewrite omap_app.
    case_bool_decide; simpl; rewrite ?length_app; simpl; lia.
Qed.

Section Replies.

Variable replies : Z → Reply.
Variable M : Z.

Lemma attempts_exhausted remaining attempt lastError :
  Z.of_nat remaining = M - attempt + 1 → (1 ≤ remaining)%nat →
  (∀ j, attempt ≤ j ≤ M → is_2xx (replies j) = false) →
  attempts (λ k, axios_post (replies k)) M remaining attempt lastError
  = (max_retries_exceeded M (Some (failure_message (replies M))),
     retries_from attempt M).
Proof.
  revert attempt lastError.
  induction remaining as [|rem IH]; intros a lastError Hrem Hpos Hfail;
    [lia|].
  cbn [attempts]. rewrite axios_post_failure by (apply Hfail; lia).
  destruct rem as [|rem].
  - assert (a = M) as -> by lia. simpl.
    rewrite bool_decide_eq_false_2 by lia.
    unfold retries_from. rewrite seqZ_nil by lia. done.
  - rewrite IH; [|lia|lia|intros; apply Hfail; lia].
    rewrite bool_decide_eq_true_2 by lia. cbn [fst snd].
    unfold retries_from. rewrite (seqZ_cons a) by lia. simpl.
    replace (Z.succ a) with (a + 1) by lia.
    by replace (Z.pred (M - a)) with (M - (a + 1)) by lia.
Qed.

Lemma attempts_delivered remaining attempt lastError k code :
  Z.of_nat remaining = M - attempt + 1 → attempt ≤ k ≤ M →
  replies k = http_status code → 200 ≤ code ≤ 299 →
  (∀ j, attempt ≤ j < k → is_2xx (replies j) = false) →
  attempts (λ k, axios_post (replies k)) M remaining attempt lastError
  = (delivered code k, retries_from attempt k).
Proof.
  revert attempt lastError.
  induction remaining as [|rem IH];
    intros a lastError Hrem Hk Hreply Hcode Hfail; [lia|].
  cbn [attempts]. destruct (decide (a = k)) as [->|Hne].
  - rewrite Hreply. simpl. rewrite !bool_decide_eq_true_2 by lia.
    unfold retries_from. rewrite seqZ_nil by lia. done.
  - rewrite axios_post_failure by (apply Hfail; lia).
    rewrite IH; [|lia|lia|done|done|intros; apply Hfail; lia].
    rewrite bool_decide_eq_true_2 by lia. cbn [fst snd].
    unfold retries_from. rewrite (seqZ_cons a) by lia. simpl.
    replace (Z.succ a) with (a + 1) by lia.
    by replace (Z.pred (k - a)) with (k - (a + 1)) by lia.
Qed.

End Replies.

(** C8: an enabled notifier with a URL, facing an endpoint whose reply to
    the [k]-th POST is [replies k], posts at most [maxRetries] times (3
    when the configuration gives none).  If the first reply with a status
    in 200..299 is the [k]-th, [k] within [maxRetries], it returns success
    with that status and [k], having slept [backoff j] after each failed
    attempt [j < k]; if no reply up to [maxRetries] has such a status, it
    returns the failure carrying the error of the last attempt, having
    slept after every failed attempt but the last.  [backoff j] is
    [min (1000 * 2^(j-1)) 10000] milliseconds: 1 s, 2 s, 4 s, 8 s, then
    10 s. *)
Theorem notify_retries_with_backoff (n : Notifier) (replies : Z → Reply)
    (url : option string) :
  enabled n = true →
  is_Some (resolve_url n url) →
  let r := notify n (λ k, axios_post (replies k)) url in
  (length (posts r.2) ≤ Z.to_nat (maxRetries n))%nat ∧
  (∀ cfg_enabled cfg_url cfg_timeout,
      maxRetries (make cfg_enabled cfg_url cfg_timeout None) = 3) ∧
  (∀ k code,
      1 ≤ k ≤ maxRetries n → replies k = http_status code →
      200 ≤ code ≤ 299 →
      (∀ j, 1 ≤ j < k → is_2xx (replies j) = false) →
      r = (delivered code k, retries k) ∧ success r.1 = true) ∧
  (1 ≤ maxRetries n →
   (∀ j, 1 ≤ j ≤ maxRetries n → is_2xx (replies j) = false) →
   r = (max_retries_exceeded (maxRetries n)
          (Some (failure_message (replies (maxRetries n)))),
        retries (maxRetries n)) ∧ success r.1 = false) ∧
  (∀ j, backoff j = Z.min (1000 * 2 ^ (j - 1)) 10000) ∧
  backoff <$> [1; 2; 3; 4; 5; 6] = [1000; 2000; 4000; 8000; 10000; 10000].
Proof.
  intros Hen [u Hu]. cbv zeta.
  assert (Hnotify : notify n (λ k, axios_post (replies k)) url
                    = attempts (λ k, axios_post (replies k)) (maxRetries n)
                        (Z.to_nat (maxRetries n)) 1 None).
  { unfold notify. by rewrite Hen, Hu. }
  rewrite Hnotify. split_and!.
  - apply posts_attempts.
  - done.
  - intros k code Hk Hreply Hcode Hfail.
    rewrite (attempts_delivered replies (maxRetries n) _ 1 None k code);
      [done|lia|done..].
  - intros HM Hfail.
    rewrite (attempts_exhausted replies (maxRetries n) _ 1 None);
      [done|lia|lia|done].
  - done.
  - done.
Qed.

(** Scenario S5: the endpoint answers 503 twice, then 200. *)
Lemma notify_retries_with_backoff_witness :
  notify notifier (λ k, axios_post (flaky k)) None
  = (delivered 200 3, [post 1; sleep 1000; post 2; sleep 2000; post 3]).
Proof.
  destruct (notify_retries_with_backoff notifier flaky None)
    as (_ & _ & H & _); [reflexivity|by eexists|].
  destruct (H 3 200) as [-> _]; [vm_compute; intuition discriminate|
    reflexivity|lia| |reflexivity].
  intros j Hj. unfold flaky. rewrite bool_decide_eq_true_2 by lia.
  reflexivity.
Defined.

End WebhookDelivery.

(** ** The counters of a session *)

Section SessionCounters.

Import SessionStore Accrual.
Local Abbreviation list := Datatypes.list (only parsing).

Lemma id_assign_session s u : id (assign s u) = id s.
Proof. by destruct u. Qed.

Lemma id_merge_session now s updates : id (merge now s updates) = id s.
Proof.
  unfold merge. simpl. revert s.
  induction updates as [|u us IH]; intros s; simpl; [done|].
  by rewrite IH, id_assign_session.
Qed.







Section InPlace.

Variable f : Session → Session.
Hypothesis id_f : ∀ s, id (f s) = id s.


Lemma get_in_place sid sid' (l : list Session) :
  get sid (in_place sid' f l)
  = if decide (sid = sid') then f <$> get sid l else get sid l.
Proof.
  unfold in_place, get.
  destruct (list_find (λ s, id s = sid') l) as [[i s]|] eqn:E.
  - case_decide as Hs.
    + subst sid'. rewrite E.
      erewrite (find_key_insert id); [done|exact E|].
      rewrite id_f. apply list_find_Some in E. tauto.
    + erewrite (find_key_insert_other id); [done|exact E| |done].
      rewrite id_f. apply list_find_Some in E. tauto.
  - case_decide as Hs; [|done]. subst sid'. by rewrite E.
Qed.


End InPlace.




Lemma get_session_None sid (l : list Session) : get sid l = None ↔ sid ∉ id <$> l.
Proof.
  rewrite <- (find_key_None id). unfold get.
  destruct (list_find _ l) as [[i s]|]; simpl; split; done.
Qed.









End SessionCounters.

Section SessionInvariant.

Import SessionStore Accrual.
Local Abbreviation list := Datatypes.list (only parsing).




End SessionInvariant.

(** ** Instances of the results above *)

Section Instances.

Import TaskStore TaskQueue Scenario.
Local Abbreviation list := Datatypes.list (only parsing).

Lemma cancel_twice_changes_once_witness :
  let q := run [ev_addTask "t1" 10 (submission "a" None)] (server 1 []) in
  cancel 31 "t1" (cancel 30 "t1" (tasks q)).2
  = (None, (cancel 30 "t1" (tasks q)).2).
Proof.
  intros q.
  assert (∃ t, get "t1" (tasks q) = Some t ∧ status t = pending)
    as (t & Hget & Hst) by (eexists; split; vm_compute; reflexivity).
  destruct (cancel_twice_changes_once q "t1" t 30 31 Hget) as [H _].
  apply (H Hst).
Defined.

Lemma start_resets_processing_witness :
  Forall (λ u, status u ≠ processing)
    (tasks (start (λ k, 500 + Z.of_nat k) after_crash)).
Proof.
  apply (start_resets_processing (λ k, 500 + Z.of_nat k) after_crash).
  - reflexivity.
  - compute_done.
Defined.

End Instances.

(** * Further properties of the code *)

(** ** Lookups by id *)

Section KeyedLookup.

Context {A : Type} (key : A → string).

(** [find] returns the first record of the key. *)
Lemma find_key_head k (l : list A) :
  snd <$> list_find (λ y, key y = k) l = head (filter (λ y, key y = k) l).
Proof.
  induction l as [|x l IH]; [done|].
  rewrite filter_cons. cbn [list_find]. case_decide; [done|].
  rewrite <- IH. by destruct (list_find _ l) as [[i y]|].
Qed.

Lemma find_key_app k (l1 l2 : list A) :
  snd <$> list_find (λ y, key y = k) (l1 ++ l2)
  = match snd <$> list_find (λ y, key y = k) l1 with
    | Some x => Some x
    | None => snd <$> list_find (λ y, key y = k) l2
    end.
Proof.
  rewrite !find_key_head, filter_app.
  by destruct (filter _ l1).
Qed.

(** Removing a record of another key changes no lookup of [k]. *)
Lemma find_key_delete_other k (l : list A) i x :
  l !! i = Some x → key x ≠ k →
  snd <$> list_find (λ y, key y = k) (delete i l)
  = snd <$> list_find (λ y, key y = k) l.
Proof.
  intros Hi Hx. rewrite !find_key_head.
  rewrite <- (take_drop_middle l i x Hi) at 2.
  rewrite delete_take_drop, !filter_app, filter_cons.
  by rewrite decide_False.
Qed.

(** With unique keys, removing the record of key [k] leaves none. *)
Lemma find_key_delete_same k (l : list A) i x :
  NoDup (key <$> l) → l !! i = Some x → key x = k →
  list_find (λ y, key y = k) (delete i l) = None.
Proof.
  intros Hnd Hi Hx. apply find_key_None.
  rewrite <- (take_drop_middle l i x Hi) in Hnd.
  rewrite delete_take_drop.
  rewrite fmap_app, fmap_cons in Hnd.
  apply NoDup_app in Hnd as (_ & Hdisj & Hnd).
  apply NoDup_cons in Hnd as [Hnot _].
  rewrite fmap_app, Hx in *.
  intros [Hin|Hin]%elem_of_app; [|done].
  apply (Hdisj k Hin). by left.
Qed.

End KeyedLookup.

(** ** The task store: records and retention *)

Section TaskRecords.

Import TaskStore TaskStoreFacts Totals Scenario.
Local Abbreviation list := Datatypes.list (only parsing).

(** X1: after [create], a lookup by id finds what it found before, and
    where it found nothing it finds the new record under the new id; so a
    fresh id leads to the new record, and an id already stored keeps
    leading to the old one.  The new record is appended, pending. *)
Theorem create_then_get (newId : string) (now : Timestamp)
    (taskData : TaskData) (tasks : list Task) :
  let r := create newId now taskData tasks in
  (∀ i, get i r.2 = match get i tasks with
                    | Some t => Some t
                    | None => if decide (i = newId) then Some r.1 else None
                    end) ∧
  r.2 = tasks ++ [r.1] ∧ id r.1 = newId ∧ status r.1 = pending ∧
  started_at r.1 = None ∧ completed_at r.1 = None ∧
  getNextPending r.2 ≠ None.
Proof.
  cbv zeta. split_and!; try done.
  - intros i. unfold get, create. cbn [snd fst].
    rewrite (find_key_app id). destruct (list_find _ tasks) as [[j t]|]; [done|].
    simpl. by repeat case_decide.
  - intros Hnone. apply getNextPending_None in Hnone.
    apply Forall_app in Hnone as [_ Hlast].
    apply Forall_cons in Hlast as [Hp _]. by apply Hp.
Qed.



Lemma filter_twice {A} (P : A → Prop) `{!∀ x, Decision (P x)} (l : list A) :
  filter P (filter P l) = filter P l.
Proof.
  induction l as [|x l IH]; [done|].
  rewrite filter_cons. case_decide; [|done].
  rewrite filter_cons, decide_True by done. by rewrite IH.
Qed.

Lemma terminal_false s :
  terminal s = false ↔ s ≠ completed ∧ s ≠ failed ∧ s ≠ cancelled.
Proof. destruct s; simpl; split; try done; intros (? & ? & ?); done. Qed.

(** X4: the retention cleanup keeps, in order, exactly the tasks that
    are not terminal or whose [completed_at] (or [created_at] when it has
    none) is later than the cutoff; in particular it never removes a
    pending or processing task, however old.  [deletedCount] is the
    number of records removed, and a second cleanup with the same cutoff
    removes nothing. *)
Theorem cleanup_keeps_live_tasks (cutoff : Timestamp) (tasks : list Task) :
  let r := cleanup cutoff tasks in
  r.2 `sublist_of` tasks ∧
  (∀ t, t ∈ r.2 ↔ t ∈ tasks ∧ retained cutoff t) ∧
  Forall (λ t, terminal (status t) = false → t ∈ r.2) tasks ∧
  r.1 = Z.of_nat (length tasks) - Z.of_nat (length r.2) ∧ 0 ≤ r.1 ∧
  cleanup cutoff r.2 = (0, r.2).
Proof.
  cbv zeta. unfold cleanup. cbn [fst snd].
  set (P := λ t : Task,
         cutoff < default (created_at t) (completed_at t) ∨
         (status t ≠ completed ∧ status t ≠ failed ∧ status t ≠ cancelled)).
  assert (Hin : ∀ t, t ∈ filter P tasks ↔ t ∈ tasks ∧ retained cutoff t).
  { intros t. rewrite list_elem_of_filter. unfold P, retained.
    rewrite terminal_false. tauto. }
  split_and!.
  - apply sublist_filter.
  - done.
  - apply Forall_lookup. intros i t Hi Hterm. apply Hin.
    split; [|by left]. apply list_elem_of_lookup. eauto.
  - done.
  - pose proof (length_filter P tasks). lia.
  - rewrite filter_twice. f_equal. lia.
Qed.





End TaskRecords.

(** ** The life of a task record *)

Section TaskLife.

Import TaskStore TaskStoreFacts Ordering Scenario.
Local Abbreviation list := Datatypes.list (only parsing).


Lemma cancel_terminal now taskId (tasks : list Task) t :
  get taskId tasks = Some t → terminal (status t) = true →
  cancel now taskId tasks = (None, tasks).
Proof.
  intros Hget Hst. apply (cancel_refused now taskId tasks t Hget);
    destruct (status t); simpl in Hst; done.
Qed.

(** X6: a stored task marked processing at [t1] and completed at [t2]
    is stored as completed with [started_at = t1], [completed_at = t2],
    [duration_ms = t2 - t1], the result and the cost given (0 when none
    is given), its priority and [created_at] unchanged.  A task that was
    never started and is marked failed gets the error and a null
    [duration_ms]. *)
Theorem processing_then_completed (taskId : string) (tasks : list Task)
    (t : Task) (t1 t2 : Timestamp) (res err : option string)
    (cost : option Qc) :
  get taskId tasks = Some t →
  (let r := markCompleted t2 taskId res cost
              (markProcessing t1 taskId tasks).2 in
   ∃ t', r.1 = Some t' ∧ get taskId r.2 = Some t' ∧
         status t' = completed ∧ started_at t' = Some t1 ∧
         completed_at t' = Some t2 ∧ duration_ms t' = Some (t2 - t1) ∧
         result t' = res ∧ cost_usd t' = default 0%Qc cost ∧
         priority t' = priority t ∧ created_at t' = created_at t ∧
         updated_at t' = t2) ∧
  (started_at t = None →
   let r := markFailed t2 taskId err tasks in
   ∃ t', r.1 = Some t' ∧ get taskId r.2 = Some t' ∧
         status t' = failed ∧ error t' = err ∧
         completed_at t' = Some t2 ∧ duration_ms t' = None ∧
         started_at t' = None).
Proof.
  intros Hget. split.
  - cbv zeta. unfold markProcessing.
    destruct (get_update t1 taskId
                [set_status processing; set_started_at (Some t1)] tasks t Hget)
      as [_ Hg1].
    unfold markCompleted. rewrite Hg1.
    destruct (get_update t2 taskId
                [set_status completed; set_completed_at (Some t2);
                 set_result res; set_cost_usd (default 0%Qc cost);
                 set_duration_ms
                   (duration_since t2
                      (merge t1 t [set_status processing;
                                   set_started_at (Some t1)]))] _ _ Hg1)
      as [Hu Hg2].
    eexists. rewrite Hu. split; [done|]. split; [exact Hg2|]. done.
  - intros Hns. cbv zeta. unfold markFailed. rewrite Hget.
    destruct (get_update t2 taskId
                [set_status failed; set_completed_at (Some t2);
                 set_error err; set_duration_ms (duration_since t2 t)]
                tasks t Hget) as [Hu Hg].
    eexists. rewrite Hu. split; [done|]. split; [exact Hg|].
    unfold duration_since. rewrite Hns. done.
Qed.

Lemma processing_then_completed_witness :
  ∃ t', get "a" (markCompleted 1700 "a" (Some "done") None
                   (markProcessing 1200 "a" tied_tasks).2).2 = Some t' ∧
        duration_ms t' = Some 500.
Proof.
  destruct (processing_then_completed "a" tied_tasks (stored "a" 5 1000)
              1200 1700 (Some "done") None None eq_refl)
    as [(t' & _ & Hget & _ & _ & _ & Hd & _) _].
  exists t'. split; [exact Hget|exact Hd].
Defined.

(** X7: the priority route answers 200 exactly when the priority is a
    number from 1 to 10 and the task is stored as pending or processing;
    otherwise it answers 400 (no number, out of range, terminal task) or
    404 (unknown id) and the store is left as it was.  On 200 the body
    carries the old and the new priority, the record of that id is stored
    with the new priority, its status unchanged, and no other lookup
    changes. *)
Theorem patch_priority_guarded (now : Timestamp) (taskId : string)
    (priority : option Z) (tasks : list Task) :
  let r := TaskRoutes.patch_priority now taskId priority tasks in
  (r.1.1 = 200 ∨ r.1.1 = 400 ∨ r.1.1 = 404) ∧
  (r.1.1 = 200 ↔
   ∃ p t, priority = Some p ∧ 1 ≤ p ≤ 10 ∧ get taskId tasks = Some t ∧
          terminal (status t) = false) ∧
  (r.1.1 = 404 ↔
   (∃ p, priority = Some p ∧ 1 ≤ p ≤ 10) ∧ get taskId tasks = None) ∧
  (r.1.1 ≠ 200 → r.2 = tasks) ∧
  (∀ p t, priority = Some p → get taskId tasks = Some t → r.1.1 = 200 →
     r.1.2 = TaskRoutes.priority_updated taskId (TaskStore.priority t) p ∧
     get taskId r.2 = Some (merge now t [set_priority p]) ∧
     status (merge now t [set_priority p]) = status t ∧
     ∀ other, other ≠ taskId → get other r.2 = get other tasks).
Proof.
  cbv zeta. unfold TaskRoutes.patch_priority.
  destruct priority as [p|]; simpl; [|naive_solver].
  case_bool_decide as Hrange; simpl; [naive_solver lia|].
  destruct (get taskId tasks) as [t|] eqn:Hget; simpl; [|naive_solver lia].
  case_bool_decide as Hst; simpl.
  { assert (terminal (status t) = true)
      by (destruct (status t); simpl; try done; by destruct Hst).
    split_and!; try naive_solver.
    split; [done|]. intros (? & ? & ? & ? & ? & ?). simplify_eq. congruence. }
  assert (terminal (status t) = false)
    by (destruct (status t); try done; destruct Hst; done).
  split_and!; [by left|naive_solver lia|naive_solver|done|].
  intros p' t' [= <-] [= <-] _.
  destruct (get_update now taskId [set_priority p] tasks t Hget) as [_ Hg].
  split_and!; [done|done|done|].
  intros other Hne. by apply get_update_other.
Qed.

(** X8: once the priority of a pending task has been raised above that
    of every pending task of another id, the next task drawn has its
    id. *)
Theorem patch_priority_takes_effect (now : Timestamp) (taskId : string)
    (p : Z) (tasks : list Task) (t : Task) :
  get taskId tasks = Some t → status t = pending → 1 ≤ p ≤ 10 →
  (∀ v, v ∈ tasks → status v = pending → id v ≠ taskId → priority v < p) →
  id <$> getNextPending
           (TaskRoutes.patch_priority now taskId (Some p) tasks).2
  = Some taskId.
Proof.
  intros Hget Hst Hp Hothers.
  unfold TaskRoutes.patch_priority.
  rewrite bool_decide_eq_false_2 by lia. rewrite Hget.
  rewrite bool_decide_eq_false_2 by (rewrite Hst; tauto). cbn [snd].
  set (ts' := (update now taskId [set_priority p] tasks).2).
  destruct (get_update now taskId [set_priority p] tasks t Hget) as [_ Hg].
  fold ts' in Hg.
  destruct (getNextPending ts') as [u|] eqn:Hnext.
  - simpl. f_equal.
    apply getNextPending_Some in Hnext as (i & Hi & Hu & Hfirst).
    destruct (decide (id u = taskId)) as [|Hne]; [done|exfalso].
    apply get_find in Hg as [j Hj]. apply list_find_Some in Hj as (Hj & _ & _).
    assert (p ≤ priority u) as Hge.
    { destruct (Hfirst j _ Hj) as [Hb|[Ht _]]; [done| |].
      - unfold before in Hb. simpl in Hb. lia.
      - unfold tied in Ht. simpl in Ht. lia. }
    assert (∃ u0, tasks !! i = Some u0) as [u0 Hu0].
    { apply lookup_lt_is_Some. apply lookup_lt_Some in Hi.
      unfold ts' in Hi. by rewrite length_update in Hi. }
    destruct (lookup_update now taskId [set_priority p] tasks i u0 Hu0)
      as (u1 & Hu1 & Hcase).
    fold ts' in Hu1. assert (u1 = u) as -> by congruence.
    destruct Hcase as [->|[Hid ->]].
    + assert (priority u0 < p); [|lia].
      apply Hothers; [|done|done]. apply list_elem_of_lookup. eauto.
    + rewrite id_merge in Hne. done.
  - exfalso. apply getNextPending_None in Hnext.
    apply get_elem_of in Hg. apply list_elem_of_lookup in Hg as [j Hj].
    eapply Forall_lookup_1 in Hnext; [|exact Hj]. by apply Hnext.
Qed.

Lemma patch_priority_takes_effect_witness :
  id <$> getNextPending
           (TaskRoutes.patch_priority 2000 "c" (Some 9) tied_tasks).2
  = Some "c".
Proof.
  apply (patch_priority_takes_effect 2000 "c" 9 tied_tasks (stored "c" 5 1000)).
  - reflexivity.
  - reflexivity.
  - lia.
  - intros v Hv _ _. unfold tied_tasks in Hv.
    repeat (apply elem_of_cons in Hv as [->|Hv]; [vm_compute; reflexivity|]).
    by apply elem_of_nil in Hv.
Defined.


End TaskLife.

(** ** Dispatch *)

Section Dispatch.

Import TaskStore TaskStoreFacts TaskQueue TaskQueueFacts Ordering Scenario.
Local Abbreviation list := Datatypes.list (only parsing).
Local Abbreviation delete := base.delete (only parsing).











End Dispatch.

(** ** Slots, timeouts and the life cycle of the queue *)

Section QueueLife.

Import TaskStore TaskStoreFacts TaskQueue TaskQueueFacts Scenario.
Local Abbreviation list := Datatypes.list (only parsing).
Local Abbreviation delete := base.delete (only parsing).

Lemma active_send_webhook task a b q :
  activeTasks (send_webhook task a b q) = activeTasks q.
Proof. unfold send_webhook. frame. Qed.

Lemma suspended_send_webhook task a b q :
  suspended (send_webhook task a b q) = suspended q.
Proof. unfold send_webhook. frame. Qed.

Lemma notices_send_webhook task custom stock q :
  notices (send_webhook task custom stock q)
  = notices q ++
    (if has_notifier q
     then [webhook (match WebhookNotifier.truthy (webhook_url (metadata task))
                    with Some _ => custom | None => stock end) (id task)]
     else []).
Proof.
  unfold send_webhook, WebhookNotifier.truthy.
  destruct (has_notifier q); [|by rewrite app_nil_r].
  destruct (webhook_url (metadata task)) as [u|]; [|done].
  by case_bool_decide.
Qed.

Lemma active_executed now r task q :
  activeTasks (executeTask_executed now r task q)
  = delete (id task) (activeTasks q).
Proof.
  unfold executeTask_executed, executeTask_finally. simpl.
  destruct r; by rewrite active_send_webhook.
Qed.

Lemma suspended_executed now r task q :
  suspended (executeTask_executed now r task q)
  = suspended q ++ [immediate_processQueue].
Proof.
  unfold executeTask_executed, executeTask_finally. simpl.
  destruct r; by rewrite suspended_send_webhook.
Qed.

Lemma size_delete_le (m : gmap string ActiveEntry) i :
  (size (delete i m) ≤ size m)%nat.
Proof.
  destruct (m !! i) eqn:E.
  - rewrite map_size_delete_Some by done. lia.
  - by rewrite map_size_delete_None.
Qed.

(** X11: whatever the executor answers (success, failure or a thrown
    error), the task leaves the active set, the suspended [executeTask]
    is gone, and one dispatch is scheduled with [setImmediate]; the
    active set never grows on an answer. *)
Theorem executor_answer_frees_slot (q : State) (k : nat) (now : Timestamp)
    (r : ExecuteResult) (task : Task) (timer : bool) :
  suspended q !! k = Some (await_execute task timer) →
  let q' := step q (ev_executed k now r) in
  activeTasks q' = delete (id task) (activeTasks q) ∧
  activeTasks q' !! id task = None ∧
  (size (activeTasks q') ≤ size (activeTasks q))%nat ∧
  suspended q' = delete k (suspended q) ++ [immediate_processQueue].
Proof.
  intros Hk. cbv zeta. cbn [step]. rewrite Hk.
  rewrite active_executed, suspended_executed.
  split_and!; [done| |apply size_delete_le|done].
  apply lookup_delete_eq.
Qed.

Lemma executor_answer_frees_slot_witness :
  activeTasks (step t1_executing (ev_executed 0 40 success)) !! "t1" = None.
Proof.
  assert (Hk : ∃ task timer,
             suspended t1_executing !! 0%nat = Some (await_execute task timer)
             ∧ id task = "t1")
    by (do 2 eexists; split; vm_compute; reflexivity).
  destruct Hk as (task & timer & Hk & Hid). rewrite <- Hid.
  by destruct (executor_answer_frees_slot t1_executing 0 40 success task timer
                 Hk) as (_ & H & _).
Defined.

End QueueLife.

Section QueueGuards.

Import TaskStore TaskStoreFacts TaskQueue TaskQueueFacts Scenario.
Local Abbreviation list := Datatypes.list (only parsing).
Local Abbreviation delete := base.delete (only parsing).

(** X12: when the timeout of a task in execution fires, the record
    stored under its id becomes failed with the error "Task execution
    timeout", [completed_at] and the duration since [started_at]; the
    task leaves the active set; [taskFailed] is emitted and, with a
    notifier, one webhook is sent, [task.timeout] when the task carries a
    webhook URL and [task.failed] otherwise.  The suspended [executeTask]
    stays, its timer spent: the timeout does not fire a second time. *)
Theorem timeout_marks_failed (q : State) (k : nat) (now now' : Timestamp)
    (task t : Task) :
  suspended q !! k = Some (await_execute task true) →
  get (id task) (tasks q) = Some t →
  let q' := step q (ev_timeout k now) in
  get (id task) (tasks q')
  = Some (merge now t
            [set_status failed; set_completed_at (Some now);
             set_error (Some "Task execution timeout");
             set_duration_ms (duration_since now t)]) ∧
  activeTasks q' = delete (id task) (activeTasks q) ∧
  notices q'
  = notices q ++ [emitted "taskFailed" (id task)] ++
    (if has_notifier q
     then [webhook (match WebhookNotifier.truthy (webhook_url (metadata task))
                    with Some _ => "task.timeout" | None => "task.failed" end)
             (id task)]
     else []) ∧
  suspended q' !! k = Some (await_execute task false) ∧
  step q' (ev_timeout k now') = q'.
Proof.
  intros Hk Hget. cbv zeta. cbn [step]. rewrite Hk.
  unfold executeTask_timeout.
  set (q1 := send_webhook task "task.timeout" "task.failed" _).
  assert (Hsusp : suspended q1 = <[k := await_execute task false]> (suspended q))
    by (unfold q1; by rewrite suspended_send_webhook).
  assert (Hlook : ∀ q2, suspended q2 = suspended q1 ∨
                        suspended q2 = suspended q1 ++ [await_getNextPending] →
                        suspended q2 !! k = Some (await_execute task false)).
  { intros q2 [->| ->]; rewrite Hsusp.
    - apply list_lookup_insert_eq. by eapply lookup_lt_Some.
    - rewrite lookup_app_l
        by (rewrite length_insert; by eapply lookup_lt_Some).
      apply list_lookup_insert_eq. by eapply lookup_lt_Some. }
  assert (Hpq : suspended (processQueue q1) = suspended q1 ∨
                suspended (processQueue q1)
                = suspended q1 ++ [await_getNextPending])
    by (unfold processQueue; frame; auto).
  split_and!.
  - rewrite tasks_processQueue. unfold q1. rewrite tasks_send_webhook. simpl.
    unfold markFailed. rewrite Hget.
    by destruct (get_update now (id task)
                   [set_status failed; set_completed_at (Some now);
                    set_error (Some "Task execution timeout");
                    set_duration_ms (duration_since now t)] _ _ Hget)
      as [_ ->].
  - assert (activeTasks (processQueue q1) = activeTasks q1) as ->
      by (unfold processQueue; frame).
    unfold q1. by rewrite active_send_webhook.
  - assert (notices (processQueue q1) = notices q1) as ->
      by (unfold processQueue; frame).
    unfold q1. rewrite notices_send_webhook. simpl. by rewrite <- app_assoc.
  - by apply Hlook.
  - cbn [step]. by rewrite (Hlook _ Hpq).
Qed.

Lemma timeout_marks_failed_witness :
  status <$> get "t1" (tasks (step t1_executing (ev_timeout 0 300021)))
  = Some failed.
Proof.
  assert (Hget : ∃ t, get "t1" (tasks t1_executing) = Some t)
    by (eexists; vm_compute; reflexivity).
  destruct Hget as [t Hget].
  assert (Hk : ∃ task,
             suspended t1_executing !! 0%nat = Some (await_execute task true)
             ∧ id task = "t1")
    by (eexists; split; vm_compute; reflexivity).
  destruct Hk as (task & Hk & Hid). rewrite <- Hid in *.
  destruct (timeout_marks_failed t1_executing 0 300021 0 task t Hk Hget)
    as (-> & _).
  reflexivity.
Defined.

(** X13: [start] on a running queue and [stop] on a stopped queue do
    nothing, so starting twice is starting once.  [stop] on a running
    queue clears [running] and the poll timer and touches neither the
    task store nor the active set; on a stopped queue a tick does
    nothing, and a dispatch scheduled with [setImmediate] runs without
    suspending anything at the store or changing the store or the active
    set. *)
Theorem start_and_stop_are_guarded (clock clock' : nat → Timestamp)
    (q : State) (k : nat) :
  start clock' (start clock q) = start clock q ∧
  running (start clock q) = true ∧
  (running q = true → start clock q = q) ∧
  (running q = false → stop q = q) ∧
  running (stop q) = false ∧
  (running q = true → pendingCheckInterval (stop q) = false) ∧
  tasks (stop q) = tasks q ∧ activeTasks (stop q) = activeTasks q ∧
  (running q = false →
   processQueue q = q ∧
   tasks (step q (ev_immediate k)) = tasks q ∧
   activeTasks (step q (ev_immediate k)) = activeTasks q ∧
   (length (suspended (step q (ev_immediate k))) ≤ length (suspended q))%nat ∧
   (pendingCheckInterval q = false → step q ev_tick = q)).
Proof.
  assert (Hrun : running (start clock q) = true).
  { unfold start. destruct (running q) eqn:Hr; [done|]. done. }
  split_and!.
  - unfold start at 1. by rewrite Hrun.
  - done.
  - intros Hr. unfold start. by rewrite Hr.
  - intros Hr. unfold stop. by rewrite Hr.
  - unfold stop, stop_loop. destruct (running q) eqn:Hr; [|done].
    simpl. by case_bool_decide.
  - intros Hr. unfold stop, stop_loop. rewrite Hr. simpl. by case_bool_decide.
  - unfold stop, stop_loop. frame.
  - unfold stop, stop_loop. frame.
  - intros Hr.
    assert (Hpq : ∀ q0, running q0 = false → processQueue q0 = q0)
      by (intros q0 H0; unfold processQueue; by rewrite H0).
    split_and!; [by apply Hpq|..].
    + cbn [step]. destruct (suspended q !! k) as [[]|]; try done.
      by rewrite Hpq.
    + cbn [step]. destruct (suspended q !! k) as [[]|]; try done.
      by rewrite Hpq.
    + cbn [step]. destruct (suspended q !! k) as [[]|] eqn:E; try done.
      rewrite Hpq by done. simpl. rewrite length_delete by eauto. lia.
    + intros Hi. cbn [step]. by rewrite Hi.
Qed.

(** X14: [stop] does not recall a dispatch that is already waiting for
    the task store: although the queue no longer runs, when
    [getNextPending] answers with a task that is not active, the
    dispatch enters it in the active set and goes on to
    [markProcessing]. *)
Theorem dispatch_in_flight_survives_stop (q : State) (k : nat)
    (now : Timestamp) (task : Task) :
  running q = false →
  suspended q !! k = Some await_getNextPending →
  getNextPending (tasks q) = Some task →
  activeTasks q !! id task = None →
  let q' := step q (ev_nextPending k now) in
  activeTasks q'
  = <[id task := {| entry_task := task; startedAt := now |}]> (activeTasks q) ∧
  size (activeTasks q') = S (size (activeTasks q)) ∧
  suspended q' = delete k (suspended q) ++ [await_markProcessing task] ∧
  running q' = false.
Proof.
  intros Hr Hk Hnext Hnone. cbv zeta. cbn [step]. rewrite Hk.
  unfold processQueue_next. cbn [tasks drop_suspended set_suspended with_queue
                                 activeTasks].
  rewrite Hnext. rewrite bool_decide_eq_false_2
    by (rewrite Hnone; by intros [? ?]).
  unfold suspend, set_active, drop_suspended, set_suspended, with_queue.
  cbn [activeTasks suspended running].
  split_and!; [done| |done|done].
  by rewrite map_size_insert_None.
Qed.

Lemma dispatch_in_flight_survives_stop_witness :
  let q := run (take 3 stopped_mid_dispatch) (server 1 []) in
  running q = false ∧
  ∃ task, getNextPending (tasks q) = Some task ∧
          size (activeTasks (step q (ev_nextPending 0 20)))
          = S (size (activeTasks q)).
Proof.
  intros q. split; [vm_compute; reflexivity|].
  assert (Hnext : ∃ task, getNextPending (tasks q) = Some task ∧
                          activeTasks q !! id task = None)
    by (eexists; split; vm_compute; reflexivity).
  destruct Hnext as (task & Hnext & Hnone).
  exists task. split; [exact Hnext|].
  destruct (dispatch_in_flight_survives_stop q 0 20 task) as (_ & H & _);
    [vm_compute; reflexivity|vm_compute; reflexivity|exact Hnext|exact Hnone|].
  exact H.
Defined.

End QueueGuards.

(** ** Deliveries, whatever the endpoint does *)

Section AnyDelivery.

Import WebhookNotifier Delivery Backoff.

Lemma backoff_bounds a : 1 ≤ a → 1000 ≤ backoff a ≤ 10000.
Proof.
  intros Ha. unfold backoff.
  assert (0 < 2 ^ (a - 1)) by (apply Z.pow_pos_nonneg; lia). lia.
Qed.

Lemma posts_cons_post k acts : posts (post k :: acts) = k :: posts acts.
Proof. done. Qed.

Lemma last_cons_nonempty {A} (x : A) l y :
  last l = Some y → last (x :: l) = Some y.
Proof. destruct l; [done|]. done. Qed.

Section Loop.

Variable outcome : Z → PostOutcome.
Variable M : Z.

(** The loop of [notify], entered at [attempt] with
    [maxRetries - attempt + 1] iterations left. *)
Lemma attempts_shape remaining attempt lastError :
  1 ≤ attempt → Z.of_nat remaining = M - attempt + 1 →
  let r := attempts outcome M remaining attempt lastError in
  posts r.2 = seqZ attempt (Z.of_nat (length (posts r.2))) ∧
  Forall bounded r.2 ∧
  ((remaining = 0)%nat ∧ r.2 = [] ∨
   (1 ≤ length (posts r.2))%nat ∧ (∃ k, last r.2 = Some (post k)) ∧
   slept r.2 ≤ 10000 * (Z.of_nat (length (posts r.2)) - 1)) ∧
  (∀ st k, r.1 = delivered st k →
           attempt ≤ k ≤ M ∧ last r.2 = Some (post k) ∧
           outcome k = resolved st ∧ 200 ≤ st < 300).
Proof.
  revert attempt lastError.
  induction remaining as [|rem IH]; intros a lastError Ha Hrem; cbv zeta.
  { simpl. split_and!; [done|constructor|by left|done]. }
  cbn [attempts].
  assert (Hstep : ∀ e, let r := attempts outcome M rem (a + 1) e in
             posts r.2 = seqZ (a + 1) (Z.of_nat (length (posts r.2))) ∧
             Forall bounded r.2 ∧
             ((rem = 0)%nat ∧ r.2 = [] ∨
              (1 ≤ length (posts r.2))%nat ∧
              (∃ k, last r.2 = Some (post k)) ∧
              slept r.2 ≤ 10000 * (Z.of_nat (length (posts r.2)) - 1)) ∧
             (∀ st k, r.1 = delivered st k →
                      a + 1 ≤ k ≤ M ∧ last r.2 = Some (post k) ∧
                      outcome k = resolved st ∧ 200 ≤ st < 300))
    by (intros e; apply IH; lia).
  assert (Hseq : ∀ l, l = seqZ (a + 1) (Z.of_nat (length l)) →
                      a :: l = seqZ a (Z.of_nat (length (a :: l)))).
  { intros l Hl. rewrite (seqZ_cons a) by (simpl; lia).
    f_equal. rewrite Hl at 1. f_equal; simpl; lia. }
  destruct (outcome a) as [st|message] eqn:Hout.
  - case_bool_decide as Hst; cbn [fst snd].
    + split_and!; [done|by repeat constructor| |].
      * right. split_and!; [simpl; lia|by exists a|simpl; lia].
      * intros st' k [= <- <-]. split_and!; [lia|lia|done|done|lia|lia].
    + destruct (Hstep (Some ("Unexpected status code: " +:+ pretty st)))
        as (Hposts & Hb & Hend & Hdel).
      cbv zeta in *. rewrite posts_cons_post. split_and!.
      * by apply Hseq.
      * by constructor.
      * right. destruct Hend as [[_ ->]|(Hlen & [k Hk] & Hslept)].
        -- split_and!; [simpl; lia|by exists a|simpl; lia].
        -- split_and!; [simpl; lia| |simpl in *; lia].
           exists k. by apply last_cons_nonempty.
      * intros st' k Hr. destruct (Hdel st' k Hr) as (? & Hl & ? & ?).
        split_and!; [lia|lia| |done|lia|lia]. by apply last_cons_nonempty.
  - destruct (Hstep (Some message)) as (Hposts & Hb & Hend & Hdel).
    cbv zeta in *. cbn [fst snd].
    rewrite posts_cons_post. unfold posts at 1 2. rewrite omap_app.
    fold (posts (attempts outcome M rem (a + 1) (Some message)).2).
    assert (Hpause : omap (λ act, match act with
                                  | post k => Some k
                                  | sleep _ => None
                                  end)
                       (if bool_decide (a < M) then [sleep (backoff a)] else [])
                     = []) by (by case_bool_decide).
    rewrite Hpause. cbn [app]. split_and!.
    + by apply Hseq.
    + constructor; [done|]. apply Forall_app. split; [|done].
      case_bool_decide; [|constructor].
      constructor; [|constructor]. by apply backoff_bounds.
    + right. destruct Hend as [[-> Hnil]|(Hlen & [k Hk] & Hslept)].
      * rewrite Hnil, app_nil_r.
        rewrite bool_decide_eq_false_2 by lia.
        split_and!; [simpl; lia|by exists a|simpl; lia].
      * split_and!; [simpl; lia| |].
        -- exists k. apply last_cons_nonempty.
           case_bool_decide; [by apply last_cons_nonempty|done].
        -- pose proof (backoff_bounds a Ha).
           case_bool_decide; simpl in *; lia.
    + intros st' k Hr. destruct (Hdel st' k Hr) as (? & Hl & ? & ?).
      split_and!; [lia|lia| |done|lia|lia].
      apply last_cons_nonempty.
      case_bool_decide; [by apply last_cons_nonempty|done].
Qed.

End Loop.

(** X15: [notify] makes no HTTP call exactly when the notifier is
    disabled, no URL is given or configured, or [maxRetries] is below 1;
    it then reports a failure: [disabled], [no_url], or
    [max_retries_exceeded] with a null [last_error]. *)
Theorem notify_posts_nothing_iff (n : Notifier) (outcome : Z → PostOutcome)
    (url : option string) :
  let r := notify n outcome url in
  (posts r.2 = [] ↔
   enabled n = false ∨ resolve_url n url = None ∨ maxRetries n < 1) ∧
  (posts r.2 = [] → r.2 = [] ∧ success r.1 = false) ∧
  (enabled n = false → r = (skipped "disabled", [])) ∧
  (enabled n = true → resolve_url n url = None → r = (skipped "no_url", [])) ∧
  (enabled n = true → is_Some (resolve_url n url) → maxRetries n < 1 →
   r = (max_retries_exceeded (maxRetries n) None, [])).
Proof.
  cbv zeta. unfold notify.
  destruct (enabled n); cbn [negb]; [|split_and!; try done; naive_solver].
  destruct (resolve_url n url) as [u|]; [|split_and!; try done; naive_solver].
  destruct (decide (maxRetries n < 1)) as [Hm|Hm].
  - replace (Z.to_nat (maxRetries n)) with 0%nat by lia. simpl.
    split_and!; try done. naive_solver.
  - destruct (Z.to_nat (maxRetries n)) as [|rem] eqn:Hrem; [lia|].
    assert (Hne : posts (attempts outcome (maxRetries n) (S rem) 1 None).2 ≠ []).
    { cbn [attempts]. destruct (outcome 1); [case_bool_decide|]; done. }
    split_and!; try done.
    split; [done|]. intros [?|[?|?]]; done.
Qed.

(** X16: whatever the endpoint does, a delivery that posts at all posts
    attempts 1, 2, 3, ... in order, at most [maxRetries] of them; every
    sleep lasts between 1 s and 10 s; the last thing done is a POST, never
    a sleep; and the time slept is at most 10 s for each attempt but the
    last.  When [notify] reports success with status [st] at attempt [k],
    attempt [k] is the last one made, it is within [maxRetries], and the
    response to it had status [st], in 200..299. *)
Theorem delivery_is_bounded (n : Notifier) (outcome : Z → PostOutcome)
    (url : option string) :
  let r := notify n outcome url in
  posts r.2 = seqZ 1 (Z.of_nat (length (posts r.2))) ∧
  (length (posts r.2) ≤ Z.to_nat (maxRetries n))%nat ∧
  Forall bounded r.2 ∧ ends_with_post r.2 ∧
  slept r.2 ≤ 10000 * Z.max 0 (Z.of_nat (length (posts r.2)) - 1) ∧
  (∀ st k, r.1 = delivered st k →
           1 ≤ k ≤ maxRetries n ∧ last r.2 = Some (post k) ∧
           outcome k = resolved st ∧ 200 ≤ st < 300).
Proof.
  cbv zeta. unfold notify.
  destruct (enabled n); cbn [negb];
    [|split_and!; try done; try (simpl; lia); try (by left);
      apply Forall_nil_2].
  destruct (resolve_url n url) as [u|];
    [|split_and!; try done; try (simpl; lia); try (by left);
      apply Forall_nil_2].
  destruct (decide (maxRetries n < 1)) as [Hm|Hm].
  { replace (Z.to_nat (maxRetries n)) with 0%nat by lia. simpl.
    split_and!; try done; try (by left); apply Forall_nil_2. }
  destruct (attempts_shape outcome (maxRetries n) (Z.to_nat (maxRetries n))
              1 None) as (Hposts & Hb & Hend & Hdel); [lia|lia|].
  cbv zeta in *. split_and!; [done|apply posts_attempts|done| | |done].
  - destruct Hend as [[_ ->]|(_ & Hk & _)]; [by left|by right].
  - destruct Hend as [[_ ->]|(_ & _ & ?)]; [done|lia].
Qed.

End AnyDelivery.

(** ** Sessions: what is charged, what is kept, what is listed *)

Section Finding.

Context {A : Type} (P Q : A → Prop) `{!∀ x, Decision (P x)}
  `{!∀ x, Decision (Q x)}.


End Finding.

Section SessionLedger.

Import SessionStore Accrual Ledger Scenario.
Local Abbreviation list := Datatypes.list (only parsing).

Lemma get_create sid newId now d (l : list Session) :
  get sid (create newId now d l).2
  = match get sid l with
    | Some s => Some s
    | None => if decide (sid = newId) then Some (create newId now d l).1
              else None
    end.
Proof.
  unfold get, create. cbn [snd fst]. rewrite (find_key_app id).
  destruct (list_find _ l) as [[j s]|]; [done|].
  simpl. by repeat case_decide.
Qed.







End SessionLedger.

Section SessionRetention.

Import SessionStore Accrual Ledger Scenario.
Local Abbreviation list := Datatypes.list (only parsing).

Lemma length_filter_split {A} (P : A → Prop) `{!∀ x, Decision (P x)}
    (l : list A) :
  (length (filter P l) + length (filter (λ x, ¬ P x) l) = length l)%nat.
Proof.
  induction l as [|x l IH]; [done|].
  rewrite !filter_cons. destruct (decide (P x)).
  - rewrite decide_False by tauto. simpl. lia.
  - rewrite decide_True by done. simpl. lia.
Qed.

(** X18: [cleanup] keeps, in order, exactly the sessions updated after
    the cutoff and removes every other one, whatever its status;
    [deletedCount] is the number of sessions removed, and a cleanup with
    the same or an earlier cutoff right after removes nothing. *)
Theorem session_cleanup_is_exact (cutoff : Timestamp)
    (sessions : list Session) :
  let r := cleanup cutoff sessions in
  r.2 `sublist_of` sessions ∧
  (∀ s, s ∈ r.2 ↔ s ∈ sessions ∧ cutoff < updated_at s) ∧
  r.1 = Z.of_nat (length (filter (λ s, ¬ cutoff < updated_at s) sessions)) ∧
  Z.of_nat (length r.2) + r.1 = Z.of_nat (length sessions) ∧
  (∀ cutoff', cutoff' ≤ cutoff → cleanup cutoff' r.2 = (0, r.2)).
Proof.
  cbv zeta. unfold cleanup. cbn [fst snd].
  pose proof (length_filter_split (λ s, cutoff < updated_at s) sessions).
  split_and!.
  - apply sublist_filter.
  - intros s. by rewrite list_elem_of_filter, (comm and).
  - lia.
  - lia.
  - intros cutoff' Hle.
    assert (Hsame : filter (λ s, cutoff' < updated_at s)
                      (filter (λ s, cutoff < updated_at s) sessions)
                    = filter (λ s, cutoff < updated_at s) sessions).
    { induction sessions as [|x l IH]; [done|].
      rewrite !filter_cons. case_decide; [|apply IH; apply length_filter_split].
      rewrite filter_cons, decide_True by lia.
      f_equal. apply IH. apply length_filter_split. }
    rewrite Hsame. f_equal. lia.
Qed.



End SessionRetention.

Section SessionListing.

Import SessionStore SessionQueries Listing.
Local Abbreviation list := Datatypes.list (only parsing).

Lemma session_compare_le a b : compare a b ≤ 0 ↔ newest_first a b.
Proof. unfold compare, newest_first. lia. Qed.

Lemma filter_all {A} (P : A → Prop) `{!∀ x, Decision (P x)} (l : list A) :
  (∀ x, P x) → filter P l = l.
Proof.
  intros HP. induction l as [|x l IH]; [done|].
  by rewrite filter_cons, decide_True, IH.
Qed.

Lemma StronglySorted_weaken {A} (R R' : relation A) (l : list A) :
  (∀ a b, R a b → R' a b) → StronglySorted R l → StronglySorted R' l.
Proof.
  intros HR. induction 1 as [|x l _ IH Hall]; constructor; [done|].
  eapply Forall_impl; [exact Hall|]. intros y. apply HR.
Qed.

Lemma filtered_matches options (l : list Session) :
  match WebhookNotifier.truthy (opt_project_path options) with
  | Some p =>
      filter (λ s, project_path s = Some p)
        match opt_status options with
        | Some st => filter (λ s, status s = st) l
        | None => l
        end
  | None =>
      match opt_status options with
      | Some st => filter (λ s, status s = st) l
      | None => l
      end
  end = filter (matches options) l.
Proof.
  destruct (WebhookNotifier.truthy (opt_project_path options)) as [p|] eqn:Ep,
    (opt_status options) as [st|] eqn:Es.
  - rewrite list_filter_filter. apply list_filter_iff. intros x.
    unfold matches. rewrite Ep, Es. tauto.
  - apply list_filter_iff. intros x. unfold matches. rewrite Ep, Es. tauto.
  - apply list_filter_iff. intros x. unfold matches. rewrite Ep, Es. tauto.
  - symmetry. apply filter_all. intros x. unfold matches. by rewrite Ep, Es.
Qed.

Lemma slice0_prefix {A} n (l : list A) : ∃ rest, slice0 n l ++ rest = l.
Proof.
  unfold slice0. case_bool_decide; eexists; apply take_drop.
Qed.

Lemma length_slice0 {A} n (l : list A) :
  Z.of_nat (length (slice0 n l))
  = if bool_decide (n < 0) then Z.max 0 (Z.of_nat (length l) + n)
    else Z.min n (Z.of_nat (length l)).
Proof.
  unfold slice0. case_bool_decide; rewrite length_take; lia.
Qed.

(** X20: [list] returns the sessions that pass the filters in force (a
    status, a non-empty project path), newest [updated_at] first.  With a
    limit it returns a prefix of that order, so every session left out is
    no newer than any session returned: [limit] of them for a positive
    limit (all, when there are fewer), and all but the last [-limit] for a
    negative one.  Without a limit, or with limit 0, nothing is left out. *)
Theorem session_list_newest_first (options : ListOptions)
    (sessions : list Session) :
  let r := SessionQueries.list options sessions in
  let selected := filter (matches options) sessions in
  ∃ rest,
    r ++ rest ≡ₚ selected ∧ StronglySorted newest_first (r ++ rest) ∧
    (∀ a b, a ∈ r → b ∈ rest → updated_at b ≤ updated_at a) ∧
    (opt_limit options = None ∨ opt_limit options = Some 0 → rest = []) ∧
    (∀ n, opt_limit options = Some n → 0 < n →
          Z.of_nat (length r) = Z.min n (Z.of_nat (length selected))) ∧
    (∀ n, opt_limit options = Some n → n < 0 →
          Z.of_nat (length r)
          = Z.max 0 (Z.of_nat (length selected) + n)).
Proof.
  cbv zeta. unfold SessionQueries.list. rewrite filtered_matches.
  set (selected := filter (matches options) sessions).
  assert (Hsorted : StronglySorted newest_first (array_sort compare selected)).
  { eapply StronglySorted_weaken;
      [|apply array_sort_sorted; unfold compare; intros; lia].
    intros a b. apply session_compare_le. }
  assert (Hlen : length (array_sort compare selected) = length selected)
    by (by rewrite array_sort_perm).
  assert (Hsplit : ∀ r rest, r ++ rest = array_sort compare selected →
            r ++ rest ≡ₚ selected ∧ StronglySorted newest_first (r ++ rest) ∧
            (∀ a b, a ∈ r → b ∈ rest → updated_at b ≤ updated_at a)).
  { intros r rest Heq. rewrite Heq. split_and!; [apply array_sort_perm|done|].
    rewrite <- Heq in Hsorted. intros a b Ha Hb.
    apply (StronglySorted_app_1_elem_of _ _ _ a b Hsorted Ha Hb). }
  destruct (opt_limit options) as [n|].
  - case_bool_decide as Hn.
    + exists []. rewrite app_nil_r.
      destruct (Hsplit (array_sort compare selected) [])
        as (? & ? & ?); [by rewrite app_nil_r|].
      rewrite app_nil_r in *. split_and!; try done; intros; simplify_eq; lia.
    + destruct (slice0_prefix n (array_sort compare selected)) as [rest Hrest].
      exists rest. destruct (Hsplit _ _ Hrest) as (? & ? & ?).
      split_and!; try done.
      * intros [?|?]; simplify_eq.
      * intros ? [= <-] ?. rewrite length_slice0, Hlen.
        rewrite bool_decide_eq_false_2 by lia. done.
      * intros ? [= <-] ?. rewrite length_slice0, Hlen.
        rewrite bool_decide_eq_true_2 by lia. done.
  - exists []. rewrite app_nil_r.
    destruct (Hsplit (array_sort compare selected) [])
      as (? & ? & ?); [by rewrite app_nil_r|].
    rewrite app_nil_r in *. split_and!; try done.
Qed.

End SessionListing.

(** ** Continuing a session *)

Section SessionLife.

Import SessionStore Accrual SessionManager Scenario.
Local Abbreviation list := Datatypes.list (only parsing).
Local Abbreviation delete := base.delete (only parsing).

Lemma get_found sid (l : list Session) s :
  get sid l = Some s →
  ∃ i, list_find (λ x, id x = sid) l = Some (i, s) ∧ l !! i = Some s ∧
       id s = sid.
Proof.
  unfold get. destruct (list_find _ l) as [[i x]|] eqn:E; [|done].
  intros [= ->]. exists i. apply list_find_Some in E as (? & ? & _). done.
Qed.

Lemma updateSessionStatus_found now sid st (l : list Session) s :
  get sid l = Some s →
  updateSessionStatus now sid st l
  = (done_ok, in_place sid (λ x, merge now x [set_status st]) l).
Proof.
  intros (i & Hfind & _)%get_found.
  unfold updateSessionStatus, update, in_place. by rewrite Hfind.
Qed.

Lemma continueSession_other other options (l l' : list Session) :
  get other l' = get other l →
  continueSession other options l' = continueSession other options l.
Proof. unfold continueSession. by intros ->. Qed.

(** X21: [continueSession] on a session just created under a fresh id
    calls the executor with the session's id and project path and with
    [options.model], or else the model given at creation, or else
    [claude-sonnet-4-5]; creating a session changes the answer for no
    other id. *)
Theorem created_session_can_continue (newId : string) (now : Timestamp)
    (sessionData : SessionData) (options : Options)
    (sessions : list Session) :
  newId ∉ id <$> sessions →
  let r := createSession newId now sessionData sessions in
  continueSession newId options r.2
  = executes
      {| arg_prompt := o_prompt options;
         arg_projectPath := sd_project_path sessionData;
         arg_model :=
           TaskStore.or_string (o_model options)
             (TaskStore.or_string (sd_model sessionData) "claude-sonnet-4-5");
         arg_sessionId := newId;
         arg_systemPrompt := o_systemPrompt options;
         arg_maxBudgetUsd := o_maxBudgetUsd options;
         arg_stream := o_stream options |} ∧
  ∀ other, other ≠ newId →
           continueSession other options r.2
           = continueSession other options sessions.
Proof.
  intros Hfresh. cbv zeta. unfold createSession. split.
  - apply get_session_None in Hfresh.
    unfold continueSession. rewrite get_create, Hfresh.
    rewrite decide_True by done. done.
  - intros other Hother. apply continueSession_other.
    rewrite get_create. destruct (get other sessions); [done|].
    by rewrite decide_False.
Qed.

Lemma created_session_can_continue_witness :
  continueSession "T"
    {| o_prompt := "hello"; o_model := None; o_systemPrompt := None;
       o_maxBudgetUsd := None; o_stream := None |}
    (createSession "T" 5 new_session session_S).2
  = executes
      {| arg_prompt := "hello"; arg_projectPath := Some "/srv";
         arg_model := "claude-sonnet-4-5"; arg_sessionId := "T";
         arg_systemPrompt := None; arg_maxBudgetUsd := None;
         arg_stream := None |}.
Proof.
  assert (Hfresh : "T" ∉ id <$> session_S).
  { vm_compute. intros [=]%list_elem_of_singleton. }
  exact (proj1 (created_session_can_continue "T" 5 new_session
                  {| o_prompt := "hello"; o_model := None;
                     o_systemPrompt := None; o_maxBudgetUsd := None;
                     o_stream := None |} session_S Hfresh)).
Defined.

(** X22: with unique session ids, once [updateSessionStatus] has
    archived a stored session, [continueSession] refuses it with
    [Session is not active: archived] and calls no executor; set back to
    active, it is continued again with its own project path and model.
    Once [deleteSession] has removed it, [continueSession] answers
    [Session not found], and a second [deleteSession] reports
    [Session not found] and changes nothing.  Neither call changes what
    [continueSession] answers for another id. *)
Theorem archived_or_deleted_session_is_refused (now : Timestamp)
    (sessionId : string) (options : Options) (sessions : list Session)
    (s : Session) :
  NoDup (id <$> sessions) → get sessionId sessions = Some s →
  let shelved := updateSessionStatus now sessionId archived sessions in
  let removed := deleteSession sessionId sessions in
  shelved.1 = done_ok ∧
  continueSession sessionId options shelved.2
  = refused "Session is not active: archived" ∧
  (∀ now',
     continueSession sessionId options
       (updateSessionStatus now' sessionId active shelved.2).2
     = executes
         {| arg_prompt := o_prompt options;
            arg_projectPath := project_path s;
            arg_model := TaskStore.or_string (o_model options) (model s);
            arg_sessionId := sessionId;
            arg_systemPrompt := o_systemPrompt options;
            arg_maxBudgetUsd := o_maxBudgetUsd options;
            arg_stream := o_stream options |}) ∧
  removed.1 = done_ok ∧
  continueSession sessionId options removed.2
  = refused ("Session not found: " +:+ sessionId) ∧
  deleteSession sessionId removed.2 = (session_not_found, removed.2) ∧
  (∀ other, other ≠ sessionId →
     continueSession other options shelved.2
     = continueSession other options sessions ∧
     continueSession other options removed.2
     = continueSession other options sessions).
Proof.
  intros Hnd Hget. cbv zeta.
  rewrite (updateSessionStatus_found _ _ _ _ _ Hget). cbn [fst snd].
  destruct (get_found _ _ _ Hget) as (i & Hfind & Hi & Hid).
  assert (Hshelved : get sessionId
            (in_place sessionId (λ x, merge now x [set_status archived])
               sessions)
          = Some (merge now s [set_status archived])).
  { rewrite get_in_place by (intros; apply id_merge_session).
    by rewrite decide_True, Hget. }
  assert (Hremoved : deleteSession sessionId sessions
                     = (done_ok, delete i sessions)).
  { unfold deleteSession, SessionStore.delete. by rewrite Hfind. }
  assert (Hgone : list_find (λ x, id x = sessionId) (delete i sessions) = None)
    by (by apply (find_key_delete_same id _ _ _ s)).
  rewrite Hremoved. cbn [fst snd]. split_and!.
  - done.
  - unfold continueSession. by rewrite Hshelved.
  - intros now'.
    rewrite (updateSessionStatus_found _ _ _ _ _ Hshelved). cbn [snd].
    unfold continueSession.
    rewrite get_in_place by (intros; apply id_merge_session).
    rewrite decide_True, Hshelved by done. simpl. by rewrite Hid.
  - done.
  - unfold continueSession, get. by rewrite Hgone.
  - unfold deleteSession, SessionStore.delete. by rewrite Hgone.
  - intros other Hother. split; apply continueSession_other.
    + rewrite get_in_place by (intros; apply id_merge_session).
      by rewrite decide_False.
    + unfold get. apply (find_key_delete_other id _ _ _ s); congruence.
Qed.

Lemma archived_or_deleted_session_is_refused_witness :
  continueSession "S"
    {| o_prompt := "hello"; o_model := None; o_systemPrompt := None;
       o_maxBudgetUsd := None; o_stream := None |}
    (updateSessionStatus 9 "S" archived session_S).2
  = refused "Session is not active: archived".
Proof.
  assert (Hnd : NoDup (id <$> session_S)) by compute_done.
  assert (Hget : ∃ s, get "S" session_S = Some s)
    by (eexists; vm_compute; reflexivity).
  destruct Hget as [s Hget].
  destruct (archived_or_deleted_session_is_refused 9 "S"
              {| o_prompt := "hello"; o_model := None;
                 o_systemPrompt := None; o_maxBudgetUsd := None;
                 o_stream := None |} session_S s Hnd Hget)
    as (_ & H & _).
  exact H.
Defined.

End SessionLife.

(** ** The statistics: totals and daily rows *)

Section FirstMatch.

Context {A : Type} (P : A → Prop) `{!∀ x, Decision (P x)}.

Lemma find_first_head (l : list A) :
  snd <$> list_find P l = head (filter P l).
Proof.
  induction l as [|x l IH]; [done|].
  rewrite filter_cons. cbn [list_find]. case_decide; [done|].
  rewrite <- IH. by destruct (list_find _ l) as [[i y]|].
Qed.

Lemma find_first_insert_same (l : list A) i x x' :
  list_find P l = Some (i, x) → P x' →
  list_find P (<[i := x']> l) = Some (i, x').
Proof.
  intros (Hi & _ & Hfirst)%list_find_Some HP.
  apply list_find_Some. split_and!; [|done|].
  - apply list_lookup_insert_eq. by eapply lookup_lt_Some.
  - intros j y Hj Hlt. rewrite list_lookup_insert_ne in Hj by lia.
    by eapply Hfirst.
Qed.

Lemma find_first_insert_other (l : list A) i x x' :
  l !! i = Some x → ¬ P x → ¬ P x' →
  snd <$> list_find P (<[i := x']> l) = snd <$> list_find P l.
Proof.
  intros Hi Hx Hx'. rewrite !find_first_head.
  rewrite insert_take_drop by (by eapply lookup_lt_Some).
  rewrite <- (take_drop_middle l i x Hi) at 3.
  rewrite !filter_app, !filter_cons. by rewrite !decide_False.
Qed.

Lemma find_first_snoc_other (l : list A) x :
  ¬ P x → snd <$> list_find P (l ++ [x]) = snd <$> list_find P l.
Proof.
  intros Hx. rewrite !find_first_head, filter_app, filter_cons.
  by rewrite decide_False, filter_nil, app_nil_r.
Qed.

Lemma find_first_snoc_new (l : list A) x :
  list_find P l = None → P x → snd <$> list_find P (l ++ [x]) = Some x.
Proof.
  intros Hnone Hx. rewrite list_find_app_r by done.
  cbn [list_find]. by rewrite decide_True.
Qed.

Lemma find_first_filter (Q : A → Prop) `{!∀ x, Decision (Q x)} (l : list A) :
  (∀ x, P x → Q x) →
  snd <$> list_find P (filter Q l) = snd <$> list_find P l.
Proof.
  intros HPQ. rewrite !find_first_head, list_filter_filter.
  f_equal. apply list_filter_iff. naive_solver.
Qed.

Lemma Forall_filter_keeps (R : A → Prop) (l : list A) :
  Forall R l → Forall R (filter P l).
Proof.
  induction 1 as [|x l Hx _ IH]; [constructor|].
  rewrite filter_cons. case_decide; [by constructor|done].
Qed.

Lemma insert_last (l : list A) x y : <[length l := y]> (l ++ [x]) = l ++ [y].
Proof.
  rewrite insert_app_r_alt by lia. by rewrite Nat.sub_diag.
Qed.

End FirstMatch.

Section Statistics.

Import StatsStore Tally.

Lemma run_calls_snoc calls c st :
  StatsStore.run (calls ++ [c]) st = apply_call (StatsStore.run calls st) c.
Proof. unfold StatsStore.run. by rewrite foldl_app. Qed.




(** The counters [recordRequest] writes outside [daily]. *)
Lemma totals_recordRequest now cutoff data st :
  let st' := (recordRequest now cutoff data st).2 in
  requests_total st' = requests_total st + 1 ∧
  requests_successful st' = requests_successful st + one_if (r_success data) ∧
  requests_failed st' = requests_failed st + one_if (negb (r_success data)) ∧
  tokens_total_input st'
  = tokens_total_input st + default 0 (r_input_tokens data) ∧
  tokens_total_output st'
  = tokens_total_output st + default 0 (r_output_tokens data) ∧
  costs_total_usd st'
  = (costs_total_usd st + default 0%Qc (r_cost_usd data))%Qc.
Proof.
  cbv zeta. unfold recordRequest.
  destruct (list_find _ (daily st)) as [[i d]|]; cbn [snd requests_total
    requests_successful requests_failed tokens_total_input
    tokens_total_output costs_total_usd];
    destruct (r_success data); simpl; split_and!; try done; lia.
Qed.


Lemma rows_total_app l1 l2 :
  rows_total (l1 ++ l2) = rows_total l1 + rows_total l2.
Proof.
  unfold rows_total. induction l1 as [|x l IH]; simpl; [done|].
  rewrite IH. lia.
Qed.

Lemma rows_total_insert (l : list DailyEntry) i d d' :
  l !! i = Some d →
  rows_total (<[i := d']> l)
  = rows_total l - total_requests d + total_requests d'.
Proof.
  intros Hi. rewrite insert_take_drop by (by eapply lookup_lt_Some).
  rewrite <- (take_drop_middle l i d Hi) at 3.
  rewrite !rows_total_app. unfold rows_total. simpl. lia.
Qed.

Lemma rows_total_filter (Q : DailyEntry → Prop) `{!∀ x, Decision (Q x)}
    (l : list DailyEntry) :
  Forall row_ok l → rows_total (filter Q l) ≤ rows_total l.
Proof.
  unfold rows_total. induction 1 as [|x l Hx _ IH]; [done|].
  rewrite filter_cons. destruct Hx as (_ & _ & _ & ? & _).
  case_decide; simpl; lia.
Qed.

Lemma row_ok_count_in data d : 
  (row_ok d ∨ d = new_entry (date d)) → row_ok (count_in data d).
Proof.
  unfold row_ok. intros [(? & ? & ? & ? & ?)| ->]; simpl;
    destruct (r_success data); split_and!; try done; lia.
Qed.

(** The rows as [recordRequest] leaves them before the old ones are
    dropped. *)
Lemma rows_recordRequest now cutoff data st :
  NoDup (date <$> daily st) → Forall row_ok (daily st) →
  ∃ rows,
    daily (recordRequest now cutoff data st).2
    = cleanupOldDailyEntries cutoff rows ∧
    NoDup (date <$> rows) ∧ Forall row_ok rows ∧
    rows_total rows = rows_total (daily st) + 1.
Proof.
  intros Hnd Hok. unfold recordRequest.
  destruct (list_find _ (daily st)) as [[i d]|] eqn:E; cbn [snd daily].
  - eexists. split; [reflexivity|].
    apply list_find_Some in E as (Hi & Hdate & _).
    split_and!.
    + rewrite list_fmap_insert. cbn [count_in date].
      rewrite list_insert_id; [done|]. by rewrite list_lookup_fmap, Hi.
    + apply Forall_insert; [done|]. apply row_ok_count_in. left.
      by eapply Forall_lookup_1.
    + rewrite (rows_total_insert _ _ d) by done. simpl. lia.
  - eexists. split; [reflexivity|].
    rewrite insert_last. apply list_find_None in E.
    split_and!.
    + rewrite fmap_app. apply NoDup_app. split_and!; [done| |].
      * intros day (x & -> & Hx)%list_elem_of_fmap.
        intros Hin%list_elem_of_singleton. simpl in Hin.
        apply list_elem_of_lookup in Hx as [j Hj].
        by eapply Forall_lookup_1 in E.
      * apply NoDup_singleton.
    + apply Forall_app. split; [done|]. constructor; [|constructor].
      apply row_ok_count_in. by right.
    + rewrite rows_total_app. unfold rows_total. simpl. lia.
Qed.

(** X24: after any sequence of [recordRequest] and [reset] calls on a
    new document, whatever the clock and the cutoff of each call, [daily]
    holds at most one row for a date; in every row [total_requests] is at
    least 1 and equals [successful_requests + failed_requests];
    [avg_duration_ms] is 0 in every row, since no call writes it; and the
    rows together count no more requests than [requests.total]. *)
Theorem daily_rows_stay_consistent (calls : list Call) :
  let st := StatsStore.run calls getDefaultData in
  NoDup (date <$> daily st) ∧ Forall row_ok (daily st) ∧
  rows_total (daily st) ≤ requests_total st.
Proof.
  cbv zeta. induction calls as [|c calls IH] using rev_ind.
  { split_and!; [apply NoDup_nil_2|constructor|done]. }
  rewrite run_calls_snoc.
  destruct c as [now cutoff data|];
    [|split_and!; [apply NoDup_nil_2|constructor|done]].
  cbn [apply_call]. destruct IH as (Hnd & Hok & Hle).
  destruct (rows_recordRequest now cutoff data _ Hnd Hok)
    as (rows & -> & Hnd' & Hok' & Htotal).
  destruct (totals_recordRequest now cutoff data
              (StatsStore.run calls getDefaultData)) as (-> & _).
  unfold cleanupOldDailyEntries. split_and!.
  - eapply sublist_NoDup; [exact Hnd'|]. apply fmap_sublist, sublist_filter.
  - by apply Forall_filter_keeps.
  - pose proof (rows_total_filter (λ d, cutoff ≤ day_start (date d)) rows Hok').
    lia.
Qed.

(** X25: when the cutoff is not later than the start of today, as it
    is for the 90 days the source keeps, [recordRequest] returns the row
    that [getByDate] finds for today afterwards; its [total_requests] is
    one more than that of the row found for today before the call, or 1
    when there was none; and [getByDate] answers as before for every
    other date that is not older than the cutoff. *)
Theorem recordRequest_returns_todays_row (now cutoff : Timestamp)
    (data : RequestData) (st : Stats) :
  cutoff ≤ day_start (getToday now) →
  let r := recordRequest now cutoff data st in
  getByDate (getToday now) r.2 = Some r.1 ∧
  date r.1 = getToday now ∧
  total_requests r.1
  = match getByDate (getToday now) st with
    | Some d => total_requests d
    | None => 0
    end + 1 ∧
  ∀ day, day ≠ getToday now → cutoff ≤ day_start day →
         getByDate day r.2 = getByDate day st.
Proof.
  intros Hcut. cbv zeta. unfold getByDate, recordRequest.
  assert (Hkept : ∀ day rows, cutoff ≤ day_start day →
            snd <$> list_find (λ d, date d = day)
                      (cleanupOldDailyEntries cutoff rows)
            = snd <$> list_find (λ d, date d = day) rows).
  { intros day rows Hday. unfold cleanupOldDailyEntries.
    apply find_first_filter. by intros x ->. }
  destruct (list_find _ (daily st)) as [[i d]|] eqn:E; cbn [fst snd daily].
  - pose proof E as (Hi & Hdate & _)%list_find_Some.
    split_and!.
    + rewrite Hkept by done.
      by erewrite find_first_insert_same.
    + done.
    + done.
    + intros day Hday Hdaycut. rewrite Hkept by done.
      apply (find_first_insert_other _ _ _ d); [done|congruence|].
      simpl. congruence.
  - rewrite insert_last. split_and!.
    + rewrite Hkept by done. by apply find_first_snoc_new.
    + done.
    + done.
    + intros day Hday Hdaycut. rewrite Hkept by done.
      apply find_first_snoc_other. simpl. congruence.
Qed.

Lemma recordRequest_returns_todays_row_witness :
  let data := {| r_success := true; r_input_tokens := Some 12;
                 r_output_tokens := None; r_cost_usd := None;
                 r_model := Some "claude-sonnet-4-5" |} in
  let r := recordRequest 17280000005 9504000005 data getDefaultData in
  getByDate (getToday 17280000005) r.2 = Some r.1.
Proof.
  assert (Hcut : 9504000005 ≤ day_start (getToday 17280000005))
    by (by vm_compute).
  exact (proj1 (recordRequest_returns_todays_row 17280000005 9504000005
                  {| r_success := true; r_input_tokens := Some 12;
                     r_output_tokens := None; r_cost_usd := None;
                     r_model := Some "claude-sonnet-4-5" |}
                  getDefaultData Hcut)).
Defined.

End Statistics.

(** ** What a request to [POST /api/claude] leaves behind *)

Section Requests.

Import ClaudeRoutes ClaudeHandler.

(** X26: a request that fails validation (400) or asks for streaming
    (501) changes neither store.  Any other request that names no session
    appends one session when a session manager is wired in, before the
    handler looks at [async]: the session is also left behind by the
    request refused with 501 because no task queue is wired in.  A task is
    appended exactly when the answer is 202; it is pending, has priority
    [priority || 5], a null [session_id], and carries the session of the
    request in [metadata.session_id]; the answer names that task and that
    session. *)
Theorem post_claude_outcomes (cfg : Config) (w : Wiring)
    (newSessionId newTaskId : string) (now now' : Timestamp) (req : Request)
    (q : TaskQueue.State) :
  let r := post_claude cfg w newSessionId newTaskId now now' req q in
  let served :=
    bool_decide (validation_error req = None) && negb (stream req) in
  let makes_session :=
    served && bool_decide (WebhookNotifier.truthy (session_id (body req)) = None)
    && has_sessionManager w in
  let sessionId :=
    if makes_session then Some newSessionId else session_id (body req) in
  let accepted := served && isAsync req && has_taskQueue w in
  TaskQueue.sessions r.2
  = (if makes_session
     then TaskQueue.sessions q
          ++ [(SessionStore.create newSessionId now
                 (auto_session cfg (body req)) (TaskQueue.sessions q)).1]
     else TaskQueue.sessions q) ∧
  (accepted = true ↔ ∀ success, status_code success r.1 = 202) ∧
  (served = false → r.2 = q ∧
     ∀ success, status_code success r.1 = 400 ∨ status_code success r.1 = 501) ∧
  (accepted = false → TaskQueue.tasks r.2 = TaskQueue.tasks q) ∧
  (served = true → isAsync req = true → has_taskQueue w = false →
     ∀ success, status_code success r.1 = 501) ∧
  (accepted = true →
     ∃ t, TaskQueue.tasks r.2 = TaskQueue.tasks q ++ [t] ∧
          TaskStore.id t = newTaskId ∧ TaskStore.status t = TaskStore.pending ∧
          TaskStore.priority t = TaskStore.or_number (priority (body req)) 5 ∧
          TaskStore.session_id t = None ∧
          meta_session_id (TaskStore.metadata t) = sessionId ∧
          r.1 = task_created newTaskId TaskStore.pending
                  (TaskStore.priority t) sessionId
                  (or_else (body_webhook_url (body req))
                     (webhook_defaultUrl cfg))).
Proof.
  cbv zeta. unfold post_claude.
  destruct (validation_error req) as [e|]; cbn [bool_decide andb negb].
  { rewrite bool_decide_eq_false_2 by done. cbn.
    split_and!; try done.
    - split; [done|]. intros Hcode. pose proof (Hcode true) as Hc. simpl in Hc. lia.
    - intros _. split; [done|]. intros success. simpl. by left. }
  rewrite bool_decide_eq_true_2 by done. cbn [andb].
  destruct (stream req); cbn [negb andb fst snd].
  { split_and!; try done.
    - split; [done|]. intros Hcode. pose proof (Hcode true) as Hc. simpl in Hc. lia.
    - intros _. split; [done|]. intros success. simpl. by right. }
  assert (Hprio : ∀ p, (if bool_decide (TaskStore.or_number p 5 = 0) then 5
                        else TaskStore.or_number p 5)
                       = TaskStore.or_number p 5).
  { intros [p|]; unfold TaskStore.or_number; repeat case_bool_decide;
      try done; lia. }
  destruct (WebhookNotifier.truthy (session_id (body req))) as [sid|] eqn:Es;
    [rewrite bool_decide_eq_false_2 by done
    |rewrite bool_decide_eq_true_2 by done];
    destruct (has_sessionManager w), (isAsync req), (has_taskQueue w);
    cbn [andb fst snd TaskQueue.sessions TaskQueue.tasks set_sessions
         status_code TaskQueue.addTask];
    (split_and!;
     [done
     |split; [done|]; try done; intros Hcode; pose proof (Hcode true) as Hc;
      simpl in Hc; lia
     |done
     |done
     |done
     |first [done
            |intros _; eexists; split; [reflexivity|];
             cbn; rewrite ?Hprio; split_and!; reflexivity]]).
Qed.

End Requests.
